(** * HD44780: a 4-bit character LCD driver over GPIO pins

    Shallow embedding of [src/raspberry-pi/HD44780.py] and the properties of
    its pin-level protocol.

    The driver talks to two external collaborators, [RPi.GPIO] and [time].
    Every call the driver makes to them is recorded as an [event]; a method
    of the class becomes a computation that reads the instance, appends
    events to a trace and either returns or raises. *)

From Stdlib Require Import ZArith QArith List Ascii Bool Lia.
From Stdlib Require String.
Import ListNotations String.StringSyntax.

Delimit Scope string_scope with string.
Local Close Scope Q_scope.
Local Open Scope Z_scope.

(** ** Python values used by the driver *)

(** A Python [str] is a sequence of characters. *)
Definition str : Type := list ascii.

Definition lit (s : String.string) : str := String.list_ascii_of_string s.
Arguments lit s%_string.

(** [ord(c)] *)
Definition ord (c : ascii) : Z := Z.of_N (N_of_ascii c).

Definition newline : ascii := ascii_of_nat 10.
Definition space : ascii := ascii_of_nat 32.

(** [s.split("\n")]: the pieces between line breaks; never empty. *)
Fixpoint split (s : str) : list str :=
  match s with
  | [] => [[]]
  | c :: s' =>
      if Ascii.eqb c newline then [] :: split s'
      else match split s' with
           | l :: ls => (c :: l) :: ls
           | [] => [[c]]
           end
  end.

(** [" " * n]: empty when [n <= 0]. *)
Definition spaces (n : Z) : str := repeat space (Z.to_nat n).

(** [s.ljust(width, " ")]: pads on the right up to [width]; a string that is
    already [width] long or longer is returned as it is. *)
Definition ljust (s : str) (width : Z) : str :=
  s ++ repeat space (Z.to_nat width - length s).

(** [range(n)] *)
Definition range (n : Z) : list nat := seq 0 (Z.to_nat n).

(** ** Exceptions and the trace of collaborator calls *)

Inductive exn : Type :=
| IndexError_pop            (* IndexError: pop from empty list *)
| IndexError_string         (* IndexError: string index out of range *)
| GPIO_rejected_mode (m : Z)  (* raised by GPIO.setmode *)
| GPIO_rejected_pin (p : Z).  (* raised by GPIO.setup *)

Inductive direction : Type := OUT.

Inductive event : Type :=
| Setmode (numbering : Z)             (* GPIO.setmode(numbering) *)
| Setup (pin : Z) (d : direction)     (* GPIO.setup(pin, d) *)
| Output (pin : Z) (level : bool)     (* GPIO.output(pin, level) *)
| Sleep (seconds : Q).                (* time.sleep(seconds) *)

(** What the platform accepts at configuration time.  [GPIO.output] and
    [time.sleep] return nothing and are taken to succeed. *)
Record GPIO : Type := {
  accepts_mode : Z -> bool;
  accepts_pin : Z -> bool
}.

(** [GPIO.BCM] *)
Definition BCM : Z := 11.

(** A computation over a state [S]: the state after, the events emitted, and
    the value returned or the exception raised.  The state survives an
    exception, as a Python object does. *)
Definition M (S A : Type) : Type := S -> S * list event * (exn + A).

Definition ret {S A} (a : A) : M S A := fun s => (s, [], inr a).

Definition raise {S A} (x : exn) : M S A := fun s => (s, [], inl x).

Definition bind {S A B} (m : M S A) (f : A -> M S B) : M S B :=
  fun s =>
    match m s with
    | (s1, t1, inl x) => (s1, t1, inl x)
    | (s1, t1, inr a) =>
        match f a s1 with
        | (s2, t2, r) => (s2, t1 ++ t2, r)
        end
    end.

Definition emit {S} (ev : event) : M S unit := fun s => (s, [ev], inr tt).

(** Reading an attribute of [self]. *)
Definition attr {S A} (f : S -> A) : M S A := fun s => (s, [], inr (f s)).

Notation "x <- m ;; k" := (bind m (fun x => k))
  (at level 61, m at next level, right associativity).
Notation "m ;; k" := (bind m (fun _ => k))
  (at level 61, right associativity).

(** [for x in xs: body(x)] *)
Fixpoint for_each {S X} (xs : list X) (body : X -> M S unit) : M S unit :=
  match xs with
  | [] => ret tt
  | x :: xs' => body x ;; for_each xs' body
  end.

Definition state_of {S A} (o : S * list event * (exn + A)) : S := fst (fst o).
Definition trace_of {S A} (o : S * list event * (exn + A)) : list event :=
  snd (fst o).
Definition result_of {S A} (o : S * list event * (exn + A)) : exn + A := snd o.

(** ** The collaborators *)

Definition GPIO_setmode {S} (gpio : GPIO) (m : Z) : M S unit :=
  if accepts_mode gpio m then emit (Setmode m) else raise (GPIO_rejected_mode m).

Definition GPIO_setup {S} (gpio : GPIO) (pin : Z) (d : direction) : M S unit :=
  if accepts_pin gpio pin then emit (Setup pin d) else raise (GPIO_rejected_pin pin).

Definition GPIO_output {S} (pin : Z) (level : bool) : M S unit :=
  emit (Output pin level).

Definition time_sleep {S} (seconds : Q) : M S unit := emit (Sleep seconds).

(** [line[i]], for [i >= 0] *)
Definition str_index {S} (line : str) (i : nat) : M S ascii :=
  match nth_error line i with
  | Some c => ret c
  | None => raise IndexError_string
  end.

(** ** class HD44780 *)

Definition MODE_DATA : bool := true.
Definition MODE_COMMAND : bool := false.

(** Time between two commands: [0.00005]. *)
Definition DEFAULT_DELAY : Q := (5 # 100000)%Q.

(** The instance attributes.  The class-level defaults of the same names are
    shadowed by [__init__] before any method reads them. *)
Record HD44780 : Type := {
  _lcd_data_pins : list Z;
  _lcd_rs : Z;
  _lcd_e : Z;
  _num_chars : Z;
  _lines : list Z
}.

(** [for pin in self._lcd_data_pins: GPIO.output(pin, data.pop(0))].
    [data] is a local list consumed from the front; popping it when it is
    empty raises before the pin is written. *)
Fixpoint output_data {S} (pins : list Z) (data : list bool) : M S unit :=
  match pins with
  | [] => ret tt
  | pin :: pins' =>
      match data with
      | [] => raise IndexError_pop
      | b :: data' => GPIO_output pin b ;; output_data pins' data'
      end
  end.

Definition _send_data (mode : bool) (data : list bool) : M HD44780 unit :=
  rs <- attr _lcd_rs ;;
  GPIO_output rs mode ;;
  pins <- attr _lcd_data_pins ;;
  output_data pins data ;;
  time_sleep DEFAULT_DELAY ;;
  e <- attr _lcd_e ;;
  GPIO_output e true ;;
  time_sleep DEFAULT_DELAY ;;
  e <- attr _lcd_e ;;
  GPIO_output e false ;;
  time_sleep DEFAULT_DELAY.

(** [bytes & m == m] *)
Definition masked (bytes m : Z) : bool := Z.land bytes m =? m.

Definition _send_bytes (bytes : Z) (mode : bool) : M HD44780 unit :=
  _send_data mode
    [ masked bytes 0x10; masked bytes 0x20; masked bytes 0x40; masked bytes 0x80 ] ;;
  _send_data mode
    [ masked bytes 0x01; masked bytes 0x02; masked bytes 0x04; masked bytes 0x08 ].

Definition _init_lcd : M HD44780 unit :=
  _send_bytes 0x28 MODE_COMMAND ;;
  _send_bytes 0x0C MODE_COMMAND ;;
  _send_bytes 0x01 MODE_COMMAND.

(** The [try]/[except IndexError] of [print_text]: the next pending input
    line left-justified, or a blank line when none is left; with the list
    [lines] as [pop(0)] leaves it. *)
Definition next_line (lines : list str) (num_chars : Z) : str * list str :=
  match lines with
  | l :: rest => (ljust l num_chars, rest)
  | [] => (spaces num_chars, [])
  end.

(** [for character_index in range(self._num_chars): ...] *)
Definition send_line (line : str) : M HD44780 unit :=
  num_chars <- attr _num_chars ;;
  for_each (range num_chars)
    (fun character_index =>
       c <- str_index line character_index ;;
       _send_bytes (ord c) MODE_DATA).

(** The body of [for index, memory_location in enumerate(self._lines)], with
    the local list [lines] threaded through the iterations. *)
Fixpoint print_lines (locations : list Z) (lines : list str) : M HD44780 unit :=
  match locations with
  | [] => ret tt
  | memory_location :: locations' =>
      _send_bytes memory_location MODE_COMMAND ;;
      num_chars <- attr _num_chars ;;
      let (line, lines') := next_line lines num_chars in
      send_line line ;;
      print_lines locations' lines'
  end.

Definition print_text (message : str) : M HD44780 unit :=
  locations <- attr _lines ;;
  print_lines locations (split message).

(** The configuration calls at the head of [__init__]. *)
Definition configure (gpio : GPIO) (rs e : Z) (data_pins : list Z)
    (gpio_mode : Z) : M unit unit :=
  GPIO_setmode gpio gpio_mode ;;
  GPIO_setup gpio rs OUT ;;
  GPIO_setup gpio e OUT ;;
  for_each data_pins (fun pin => GPIO_setup gpio pin OUT).

(** [HD44780(rs, e, data_pins, num_chars, line_memory_positions, gpio_mode)]:
    the events of the constructor and the instance it returns, or the
    exception it raises, in which case the caller gets no instance. *)
Definition __init__ (gpio : GPIO) (rs e : Z) (data_pins : list Z)
    (num_chars : Z) (line_memory_positions : list Z) (gpio_mode : Z)
  : list event * (exn + HD44780) :=
  match configure gpio rs e data_pins gpio_mode tt with
  | (_, t, inl x) => (t, inl x)
  | (_, t, inr _) =>
      let self := {| _lcd_data_pins := data_pins;
                     _lcd_rs := rs;
                     _lcd_e := e;
                     _num_chars := num_chars;
                     _lines := line_memory_positions |} in
      match _init_lcd self with
      | (_, t', inl x) => (t ++ t', inl x)
      | (self', t', inr _) => (t ++ t', inr self')
      end
  end.

(** ** Observations on traces *)

(** The strings bound to [line] over the first [n] iterations of the loop of
    [print_text]. *)
Fixpoint formatted_lines (n : nat) (lines : list str) (num_chars : Z)
  : list str :=
  match n with
  | O => []
  | Datatypes.S n' =>
      let (line, lines') := next_line lines num_chars in
      line :: formatted_lines n' lines' num_chars
  end.

(** One nibble on the wire, as the protocol describes it: register select,
    the data lines in pin order, settle, strobe high, hold, strobe low,
    recover. *)
Definition nibble_transfer (self : HD44780) (mode : bool) (bits : list bool)
  : list event :=
  Output (_lcd_rs self) mode
  :: map (fun pb => Output (fst pb) (snd pb)) (combine (_lcd_data_pins self) bits)
  ++ [ Sleep DEFAULT_DELAY;
       Output (_lcd_e self) true; Sleep DEFAULT_DELAY;
       Output (_lcd_e self) false; Sleep DEFAULT_DELAY ].

(** One byte on the wire: bits 4-7, then bits 0-3. *)
Definition byte_transfer (self : HD44780) (mode : bool) (v : Z) : list event :=
  nibble_transfer self mode
    [Z.testbit v 4; Z.testbit v 5; Z.testbit v 6; Z.testbit v 7]
  ++ nibble_transfer self mode
    [Z.testbit v 0; Z.testbit v 1; Z.testbit v 2; Z.testbit v 3].

(** A sequence of (mode, byte) transfers on the wire. *)
Definition transfers (self : HD44780) (xs : list (bool * Z)) : list event :=
  flat_map (fun x => byte_transfer self (fst x) (snd x)) xs.

(** The transfers of one display row: its address as a command, then the
    first [w] characters of [line] as data. *)
Definition row_transfers (w : nat) (location : Z) (line : str)
  : list (bool * Z) :=
  (MODE_COMMAND, location)
  :: map (fun c => (MODE_DATA, ord c)) (firstn w line).

Definition rendered (locations : list Z) (lines : list str) (num_chars : Z)
  : list (bool * Z) :=
  flat_map (fun al => row_transfers (Z.to_nat num_chars) (fst al) (snd al))
    (combine locations
       (formatted_lines (length locations) lines num_chars)).

(** The levels written to one pin, in order. *)
Fixpoint writes_to (pin : Z) (t : list event) : list bool :=
  match t with
  | [] => []
  | Output p level :: t' =>
      if p =? pin then level :: writes_to pin t' else writes_to pin t'
  | _ :: t' => writes_to pin t'
  end.

(** Low-to-high and high-to-low transitions of a line that starts at
    [level] and is then written [ws]. *)
Fixpoint rising_edges (level : bool) (ws : list bool) : nat :=
  match ws with
  | [] => 0
  | w :: ws' => ((if negb level && w then 1 else 0) + rising_edges w ws')%nat
  end.

Fixpoint falling_edges (level : bool) (ws : list bool) : nat :=
  match ws with
  | [] => 0
  | w :: ws' => ((if level && negb w then 1 else 0) + falling_edges w ws')%nat
  end.

(** The waits of a trace, in order. *)
Fixpoint sleeps (t : list event) : list Q :=
  match t with
  | [] => []
  | Sleep d :: t' => d :: sleeps t'
  | _ :: t' => sleeps t'
  end.

Definition is_output (ev : event) : bool :=
  match ev with Output _ _ => true | _ => false end.

Definition is_rejection (x : exn) : bool :=
  match x with
  | GPIO_rejected_mode _ | GPIO_rejected_pin _ => true
  | _ => false
  end.

(** The data model's invariant on the pin assignment: four data lines. *)
Definition four_data_pins (self : HD44780) : Prop :=
  length (_lcd_data_pins self) = 4%nat.

(** A computation that leaves the state as it found it, whatever it emits
    and whether it returns or raises. *)
Definition keeps_state {S A} (m : M S A) : Prop :=
  forall s, state_of (m s) = s.

(** A computation run from [s] that does not raise [x]. *)
Definition avoids {S A} (x : exn) (m : M S A) (s : S) : Prop :=
  result_of (m s) <> inl x.

(** The events of a configuration that the platform accepts. *)
Definition configured (rs e : Z) (data_pins : list Z) (gpio_mode : Z)
  : list event :=
  Setmode gpio_mode :: map (fun pin => Setup pin OUT) (rs :: e :: data_pins).

Definition accepts_all (gpio : GPIO) (rs e : Z) (data_pins : list Z)
    (gpio_mode : Z) : bool :=
  accepts_mode gpio gpio_mode && forallb (accepts_pin gpio) (rs :: e :: data_pins).

(** A platform that accepts every numbering and every pin, and one that
    knows no pin 18. *)
Definition any_pin : GPIO :=
  {| accepts_mode := fun _ => true; accepts_pin := fun _ => true |}.

Definition no_pin_18 : GPIO :=
  {| accepts_mode := fun _ => true; accepts_pin := fun p => negb (p =? 18) |}.

(** The wiring of the module's own example: four rows of twenty columns. *)
Definition demo_lcd : HD44780 :=
  {| _lcd_data_pins := [25; 24; 23; 18];
     _lcd_rs := 7;
     _lcd_e := 8;
     _num_chars := 20;
     _lines := [0x80; 0xC0; 0x94; 0xD4] |}.

(** ** The console program at the foot of the module *)

(** ["\n".join(lines)] *)
Fixpoint join (lines : list str) : str :=
  match lines with
  | [] => []
  | l :: rest =>
      match rest with
      | [] => l
      | _ :: _ => l ++ newline :: join rest
      end
  end.

(** [lines[-4:]] *)
Definition last_four {A} (lines : list A) : list A :=
  skipn (length lines - 4) lines.

(** What ends the session at the prompt: [raw_input] raises
    [KeyboardInterrupt] on an interrupt and [EOFError] at the end of the
    input. *)
Inductive stop : Type := Interrupt | EndOfInput.

(** The program's calls to the outside: those of the driver, the prompt of
    [raw_input(">")], and [GPIO.cleanup()]. *)
Inductive main_event : Type :=
| Pin (ev : event)
| Prompt
| Cleanup.

(** What leaves the program uncaught. *)
Inductive main_exn : Type :=
| Raised (x : exn)
| EOFError.

(** The body of [while True], for a session in which [typed] is entered line
    by line and [last] then ends it while the program waits at the prompt.
    The result is [None] when the loop was left by [KeyboardInterrupt],
    which the program catches. *)
Fixpoint main_loop (lcd : HD44780) (lines : list str) (typed : list str)
    (last : stop) : list main_event * option main_exn :=
  match print_text (join lines) lcd with
  | (_, t, inl x) => (map Pin t, Some (Raised x))
  | (lcd', t, inr _) =>
      match typed with
      | [] =>
          (map Pin t ++ [Prompt],
           match last with
           | Interrupt => None
           | EndOfInput => Some EOFError
           end)
      | input :: typed' =>
          let (t', r) := main_loop lcd' (last_four (lines ++ [input])) typed' last in
          (map Pin t ++ Prompt :: t', r)
      end
  end.

(** [if __name__ == '__main__': ...] *)
Definition main (gpio : GPIO) (typed : list str) (last : stop)
  : list main_event * option main_exn :=
  let lines := [lit "Welcome..."] in
  match __init__ gpio 7 8 [25; 24; 23; 18] 20 [0x80; 0xC0; 0x94; 0xD4] BCM with
  | (t, inl x) => (map Pin t, Some (Raised x))
  | (t, inr lcd) =>
      match main_loop lcd lines typed last with
      | (t', Some x) => (map Pin t ++ t', Some x)
      | (t', None) => (map Pin t ++ t' ++ [Cleanup], None)
      end
  end.

(** A line as [raw_input] returns it holds no line break. *)
Definition one_line (l : str) : Prop := ~ In newline l.

(** An event a method of the driver may emit on [self]: a write to one of
    its own six pins, or the fixed wait. *)
Definition driver_event (self : HD44780) (ev : event) : Prop :=
  match ev with
  | Output p _ => In p (_lcd_rs self :: _lcd_e self :: _lcd_data_pins self)
  | Sleep d => d = DEFAULT_DELAY
  | _ => False
  end.

(** What one pass of the console loop emits when [lines] is on screen. *)
Definition screen (lcd : HD44780) (lines : list str) : list main_event :=
  map Pin (transfers lcd (rendered (_lines lcd) lines (_num_chars lcd)))
  ++ [Prompt].

(** A wiring with one data pin too many. *)
Definition five_pin_lcd : HD44780 :=
  {| _lcd_data_pins := [25; 24; 23; 18; 15];
     _lcd_rs := 7;
     _lcd_e := 8;
     _num_chars := 20;
     _lines := [0x80; 0xC0] |}.

(** How a session that ends with [last] leaves the program: an interrupt is
    caught, the end of the input is not. *)
Definition ending (last : stop) : option main_exn :=
  match last with
  | Interrupt => None
  | EndOfInput => Some EOFError
  end.

(** ** The monad's equations *)

Lemma bind_run {S A B} (m : M S A) (f : A -> M S B) s s1 t1 a s2 t2 r :
  m s = (s1, t1, inr a) -> f a s1 = (s2, t2, r) ->
  bind m f s = (s2, t1 ++ t2, r).
Proof. intros H1 H2. unfold bind. rewrite H1, H2. reflexivity. Qed.

Lemma bind_silent {S A B} (m : M S A) (f : A -> M S B) s s1 a :
  m s = (s1, [], inr a) -> bind m f s = f a s1.
Proof.
  intros H. unfold bind. rewrite H. now destruct (f a s1) as [[s2 t2] r].
Qed.

Lemma bind_raise {S A B} (m : M S A) (f : A -> M S B) s s1 t1 x :
  m s = (s1, t1, inl x) -> bind m f s = (s1, t1, inl x).
Proof. intros H. unfold bind. rewrite H. reflexivity. Qed.

(** ** Bit masks *)

Lemma land_pow2 (v k : Z) :
  0 <= k -> Z.land v (2 ^ k) = if Z.testbit v k then 2 ^ k else 0.
Proof.
  intros Hk. apply Z.bits_inj'. intros n Hn.
  rewrite Z.land_spec, Z.pow2_bits_eqb by assumption.
  destruct (Z.eqb_spec k n) as [->|Hne].
  - destruct (Z.testbit v n) eqn:E; simpl.
    + rewrite Z.pow2_bits_eqb by assumption. now rewrite Z.eqb_refl.
    + now rewrite Z.bits_0.
  - rewrite andb_false_r. destruct (Z.testbit v k).
    + rewrite Z.pow2_bits_eqb by assumption.
      symmetry. now apply Z.eqb_neq.
    + now rewrite Z.bits_0.
Qed.

Lemma masked_testbit (v k : Z) :
  0 <= k -> masked v (2 ^ k) = Z.testbit v k.
Proof.
  intros Hk. unfold masked. rewrite land_pow2 by assumption.
  destruct (Z.testbit v k).
  - apply Z.eqb_refl.
  - apply Z.eqb_neq. pose proof (Z.pow_pos_nonneg 2 k). lia.
Qed.

Lemma high_nibble (v : Z) :
  [ masked v 0x10; masked v 0x20; masked v 0x40; masked v 0x80 ]
  = [ Z.testbit v 4; Z.testbit v 5; Z.testbit v 6; Z.testbit v 7 ].
Proof.
  change 0x10 with (2 ^ 4). change 0x20 with (2 ^ 5).
  change 0x40 with (2 ^ 6). change 0x80 with (2 ^ 7).
  now rewrite !masked_testbit by lia.
Qed.

Lemma low_nibble (v : Z) :
  [ masked v 0x01; masked v 0x02; masked v 0x04; masked v 0x08 ]
  = [ Z.testbit v 0; Z.testbit v 1; Z.testbit v 2; Z.testbit v 3 ].
Proof.
  change 0x01 with (2 ^ 0). change 0x02 with (2 ^ 1).
  change 0x04 with (2 ^ 2). change 0x08 with (2 ^ 3).
  now rewrite !masked_testbit by lia.
Qed.

(** ** Nibble and byte transfers *)

Lemma output_data_run {S} (pins : list Z) : forall (data : list bool) (s : S),
  (length pins <= length data)%nat ->
  output_data pins data s
  = (s, map (fun pb => Output (fst pb) (snd pb)) (combine pins data), inr tt).
Proof.
  induction pins as [|pin pins IH]; intros data s Hlen.
  - reflexivity.
  - destruct data as [|b data]; simpl in Hlen; [lia|].
    simpl. unfold bind, GPIO_output, emit.
    rewrite IH by lia. reflexivity.
Qed.

Lemma send_data_run (self : HD44780) (mode : bool) (data : list bool) :
  four_data_pins self -> length data = 4%nat ->
  _send_data mode data self = (self, nibble_transfer self mode data, inr tt).
Proof.
  intros Hp Hd. unfold four_data_pins in Hp.
  unfold _send_data, nibble_transfer, bind, attr, GPIO_output, time_sleep, emit.
  rewrite output_data_run by lia. reflexivity.
Qed.

Lemma send_bytes_run (self : HD44780) (v : Z) (mode : bool) :
  four_data_pins self ->
  _send_bytes v mode self = (self, byte_transfer self mode v, inr tt).
Proof.
  intros Hp. unfold _send_bytes, byte_transfer.
  rewrite high_nibble, low_nibble.
  erewrite bind_run; [reflexivity | |]; now apply send_data_run.
Qed.

(** C1.  With four data lines wired, sending a byte [v] in either mode makes
    exactly two nibble transfers and returns: first bits 4, 5, 6, 7 of [v]
    on data lines 0, 1, 2, 3, then bits 0, 1, 2, 3 on the same lines, the
    register-select line being written with [mode] at the head of both.
    It holds for every integer [v], so for every byte in 0..255. *)
Theorem send_bytes_two_nibbles_high_first
    (self : HD44780) (v : Z) (mode : bool) (d0 d1 d2 d3 : Z) :
  _lcd_data_pins self = [d0; d1; d2; d3] ->
  let rs := _lcd_rs self in
  let e := _lcd_e self in
  _send_bytes v mode self
  = (self,
     [ Output rs mode;
       Output d0 (Z.testbit v 4); Output d1 (Z.testbit v 5);
       Output d2 (Z.testbit v 6); Output d3 (Z.testbit v 7);
       Sleep DEFAULT_DELAY;
       Output e true; Sleep DEFAULT_DELAY;
       Output e false; Sleep DEFAULT_DELAY;
       Output rs mode;
       Output d0 (Z.testbit v 0); Output d1 (Z.testbit v 1);
       Output d2 (Z.testbit v 2); Output d3 (Z.testbit v 3);
       Sleep DEFAULT_DELAY;
       Output e true; Sleep DEFAULT_DELAY;
       Output e false; Sleep DEFAULT_DELAY ],
     inr tt)
  /\ _send_bytes v mode self
     = bind (_send_data mode [ Z.testbit v 4; Z.testbit v 5;
                               Z.testbit v 6; Z.testbit v 7 ])
         (fun _ => _send_data mode [ Z.testbit v 0; Z.testbit v 1;
                                     Z.testbit v 2; Z.testbit v 3 ]) self.
Proof.
  intros Hpins rs e. split.
  - rewrite send_bytes_run by (unfold four_data_pins; now rewrite Hpins).
    unfold byte_transfer, nibble_transfer. rewrite Hpins. reflexivity.
  - unfold _send_bytes. now rewrite high_nibble, low_nibble.
Qed.

Lemma send_bytes_two_nibbles_high_first_witness :
  _send_bytes 0x28 MODE_COMMAND demo_lcd
  = (demo_lcd,
     [ Output 7 false;
       Output 25 false; Output 24 true; Output 23 false; Output 18 false;
       Sleep DEFAULT_DELAY;
       Output 8 true; Sleep DEFAULT_DELAY;
       Output 8 false; Sleep DEFAULT_DELAY;
       Output 7 false;
       Output 25 false; Output 24 false; Output 23 false; Output 18 true;
       Sleep DEFAULT_DELAY;
       Output 8 true; Sleep DEFAULT_DELAY;
       Output 8 false; Sleep DEFAULT_DELAY ],
     inr tt).
Proof.
  exact (proj1 (send_bytes_two_nibbles_high_first
                  demo_lcd 0x28 MODE_COMMAND 25 24 23 18 eq_refl)).
Defined.

(** C2.  With four data lines wired, one nibble transfer emits exactly:
    register select := mode; the four data lines in pin order; a wait;
    enable := high; a wait; enable := low; a wait.  The three waits are the
    same constant, a byte has six of them, and when the enable pin is none
    of the other five pins and starts low, the transfer gives it exactly one
    rising and one falling edge and leaves it low. *)
Theorem send_data_strobe_sequence
    (self : HD44780) (mode : bool) (b0 b1 b2 b3 : bool) (d0 d1 d2 d3 : Z) :
  _lcd_data_pins self = [d0; d1; d2; d3] ->
  let rs := _lcd_rs self in
  let e := _lcd_e self in
  let t := trace_of (_send_data mode [b0; b1; b2; b3] self) in
  _send_data mode [b0; b1; b2; b3] self
  = (self,
     [ Output rs mode;
       Output d0 b0; Output d1 b1; Output d2 b2; Output d3 b3;
       Sleep DEFAULT_DELAY;
       Output e true; Sleep DEFAULT_DELAY;
       Output e false; Sleep DEFAULT_DELAY ],
     inr tt)
  /\ sleeps t = [DEFAULT_DELAY; DEFAULT_DELAY; DEFAULT_DELAY]
  /\ (forall v, sleeps (trace_of (_send_bytes v mode self))
                = repeat DEFAULT_DELAY 6)
  /\ (~ In e [rs; d0; d1; d2; d3] ->
      writes_to e t = [true; false]
      /\ rising_edges false (writes_to e t) = 1%nat
      /\ falling_edges false (writes_to e t) = 1%nat
      /\ last (writes_to e t) false = false).
Proof.
  intros Hpins rs e t.
  assert (Hp : four_data_pins self)
    by (unfold four_data_pins; now rewrite Hpins).
  assert (Ht : t = [ Output rs mode;
                     Output d0 b0; Output d1 b1; Output d2 b2; Output d3 b3;
                     Sleep DEFAULT_DELAY;
                     Output e true; Sleep DEFAULT_DELAY;
                     Output e false; Sleep DEFAULT_DELAY ]).
  { subst t. rewrite send_data_run by easy.
    unfold trace_of, nibble_transfer. simpl. now rewrite Hpins. }
  split; [|split; [|split]].
  - rewrite send_data_run by easy.
    unfold nibble_transfer. rewrite Hpins. reflexivity.
  - now rewrite Ht.
  - intros v. rewrite send_bytes_run by assumption.
    unfold trace_of, byte_transfer, nibble_transfer. rewrite Hpins.
    reflexivity.
  - intros Hnot. simpl in Hnot.
    assert (Hw : writes_to e t = [true; false]).
    { rewrite Ht. simpl. rewrite Z.eqb_refl.
      repeat match goal with
             | |- context [?p =? e] =>
                 destruct (Z.eqb_spec p e); [exfalso; tauto|]
             end.
      reflexivity. }
    rewrite Hw. repeat split.
Qed.

Lemma send_data_strobe_sequence_witness :
  _send_data MODE_DATA [true; false; false; true] demo_lcd
  = (demo_lcd,
     [ Output 7 true;
       Output 25 true; Output 24 false; Output 23 false; Output 18 true;
       Sleep DEFAULT_DELAY;
       Output 8 true; Sleep DEFAULT_DELAY;
       Output 8 false; Sleep DEFAULT_DELAY ],
     inr tt)
  /\ rising_edges false
       (writes_to 8
          (trace_of (_send_data MODE_DATA [true; false; false; true] demo_lcd)))
     = 1%nat.
Proof.
  destruct (send_data_strobe_sequence demo_lcd MODE_DATA true false false true
              25 24 23 18 eq_refl) as (H1 & _ & _ & H4).
  split; [exact H1|].
  apply H4. simpl. intros [H|[H|[H|[H|[H|[]]]]]]; discriminate H.
Defined.

(** ** Line formatting *)

Lemma ljust_length (l : str) (num_chars : Z) :
  length (ljust l num_chars) = Nat.max (length l) (Z.to_nat num_chars).
Proof. unfold ljust. rewrite length_app, repeat_length. lia. Qed.

Lemma spaces_length (num_chars : Z) :
  length (spaces num_chars) = Z.to_nat num_chars.
Proof. apply repeat_length. Qed.

Lemma next_line_wide (lines : list str) (num_chars : Z) :
  (Z.to_nat num_chars <= length (fst (next_line lines num_chars)))%nat.
Proof.
  destruct lines as [|l rest]; simpl.
  - now rewrite spaces_length.
  - rewrite ljust_length. lia.
Qed.

Lemma formatted_lines_length (n : nat) : forall lines num_chars,
  length (formatted_lines n lines num_chars) = n.
Proof.
  induction n as [|n IH]; intros lines num_chars; simpl.
  - reflexivity.
  - destruct (next_line lines num_chars) as [line lines']. simpl.
    now rewrite IH.
Qed.

Lemma formatted_lines_blank (n : nat) (num_chars : Z) :
  formatted_lines n [] num_chars = repeat (spaces num_chars) n.
Proof. induction n as [|n IH]; simpl; [|rewrite IH]; reflexivity. Qed.

Lemma formatted_lines_closed (n : nat) : forall lines num_chars,
  formatted_lines n lines num_chars
  = map (fun l => ljust l num_chars) (firstn n lines)
    ++ repeat (spaces num_chars) (n - length lines).
Proof.
  induction n as [|n IH]; intros lines num_chars.
  - reflexivity.
  - destruct lines as [|l rest].
    + rewrite formatted_lines_blank. reflexivity.
    + simpl. now rewrite IH.
Qed.

Lemma formatted_lines_wide (n : nat) : forall lines num_chars s,
  In s (formatted_lines n lines num_chars) ->
  (Z.to_nat num_chars <= length s)%nat.
Proof.
  induction n as [|n IH]; intros lines num_chars s; simpl.
  - intros [].
  - pose proof (next_line_wide lines num_chars) as Hw.
    destruct (next_line lines num_chars) as [line lines']. simpl in *.
    intros [<-|Hin]; [assumption|]. now apply IH in Hin.
Qed.

(** The local [line] before the loop over [range(num_chars)] reads it.
    Over [n] rows the loop binds [line] to [n] strings.  The first [min k n]
    are the input lines in order, each padded on the right with spaces up to
    the width and not yet cut: its length is the larger of its own length
    and the width.  The others are exactly [w] spaces.  Every one is at
    least [w] long, and its first [w] characters are [w] in number. *)
Lemma formatted_lines_shape (lines : list str) (num_chars : Z) (n : nat) :
  let w := Z.to_nat num_chars in
  let out := formatted_lines n lines num_chars in
  length out = n
  /\ out = map (fun l => l ++ repeat space (w - length l)) (firstn n lines)
           ++ repeat (repeat space w) (n - Nat.min (length lines) n)
  /\ length (firstn n lines) = Nat.min (length lines) n
  /\ (forall l, length (l ++ repeat space (w - length l))
                = Nat.max (length l) w)
  /\ (forall s, In s out -> (w <= length s)%nat)
  /\ (forall s, In s out -> length (firstn w s) = w).
Proof.
  intros w out. subst out.
  split; [apply formatted_lines_length|].
  split.
  { rewrite formatted_lines_closed. unfold ljust, spaces. fold w.
    f_equal. f_equal. lia. }
  split; [rewrite length_firstn; lia|].
  split; [intros l; apply (ljust_length l num_chars)|].
  split.
  - intros s Hs. now apply formatted_lines_wide in Hs.
  - intros s Hs. apply formatted_lines_wide in Hs.
    rewrite length_firstn. fold w in Hs. lia.
Qed.

Lemma formatted_lines_shape_witness :
  formatted_lines 2 (split (lit "Hi")) 20
  = [lit "Hi                  "; lit "                    "]
  /\ (20 <= length (lit "Hi                  "))%nat
  /\ length (firstn 20 (lit "Hi                  ")) = 20%nat.
Proof.
  destruct (formatted_lines_shape (split (lit "Hi")) 20 2)
    as (_ & H2 & _ & _ & H5 & H6).
  split; [exact H2|]. split.
  - apply H5. now left.
  - apply H6. now left.
Defined.

(** [ljust] does not cut: a 25-character line on a 20-column display is bound
    to [line] whole, 25 characters long; the cut to 20 is made by the loop
    that reads it. *)
Remark formatted_line_longer_than_width :
  let text := lit "AAAAAAAAAAAAAAAAAAAAAAAAA" in
  let out := formatted_lines 2 (split text) 20 in
  nth_error out 0 = Some text
  /\ length text = 25%nat
  /\ ~ (forall s, In s out -> length s = 20%nat).
Proof.
  split; [reflexivity|]. split; [reflexivity|].
  intros H. specialize (H _ (or_introl eq_refl)). discriminate H.
Qed.

(** ** Rendering *)

Lemma transfers_cons (self : HD44780) (mode : bool) (v : Z) xs :
  transfers self ((mode, v) :: xs)
  = byte_transfer self mode v ++ transfers self xs.
Proof. reflexivity. Qed.

Lemma transfers_app (self : HD44780) xs ys :
  transfers self (xs ++ ys) = transfers self xs ++ transfers self ys.
Proof. apply flat_map_app. Qed.

Lemma send_chars_run (self : HD44780) (k : nat) :
  four_data_pins self ->
  forall (pre line : str),
  (k <= length line)%nat ->
  for_each (seq (length pre) k)
    (fun character_index =>
       c <- str_index (pre ++ line) character_index ;;
       _send_bytes (ord c) MODE_DATA) self
  = (self,
     transfers self (map (fun c => (MODE_DATA, ord c)) (firstn k line)),
     inr tt).
Proof.
  intros Hp. induction k as [|k IH]; intros pre line Hk.
  - reflexivity.
  - destruct line as [|c line]; simpl in Hk; [lia|].
    cbn [seq for_each firstn map]. rewrite transfers_cons.
    eapply bind_run.
    + rewrite (bind_silent _ _ self self c).
      * now apply send_bytes_run.
      * unfold str_index.
        rewrite nth_error_app2, Nat.sub_diag by lia. reflexivity.
    + specialize (IH (pre ++ [c]) line).
      rewrite length_app, Nat.add_1_r, <- app_assoc in IH.
      apply IH. lia.
Qed.

Lemma send_line_run (self : HD44780) (line : str) :
  four_data_pins self ->
  (Z.to_nat (_num_chars self) <= length line)%nat ->
  send_line line self
  = (self,
     transfers self
       (map (fun c => (MODE_DATA, ord c))
          (firstn (Z.to_nat (_num_chars self)) line)),
     inr tt).
Proof.
  intros Hp Hw. unfold send_line.
  rewrite (bind_silent (attr _num_chars) _ self self (_num_chars self) eq_refl).
  apply (send_chars_run self _ Hp [] line Hw).
Qed.

Lemma rendered_cons (a : Z) (locations : list Z) (lines : list str) w :
  rendered (a :: locations) lines w
  = row_transfers (Z.to_nat w) a (fst (next_line lines w))
    ++ rendered locations (snd (next_line lines w)) w.
Proof.
  unfold rendered. simpl.
  destruct (next_line lines w) as [line lines']. reflexivity.
Qed.

Lemma print_lines_run (self : HD44780) :
  four_data_pins self ->
  forall (locations : list Z) (lines : list str),
  print_lines locations lines self
  = (self, transfers self (rendered locations lines (_num_chars self)), inr tt).
Proof.
  intros Hp. induction locations as [|a locations IH]; intros lines.
  - reflexivity.
  - rewrite rendered_cons. cbn [print_lines].
    pose proof (next_line_wide lines (_num_chars self)) as Hw.
    rewrite transfers_app. unfold row_transfers.
    rewrite transfers_cons, <- app_assoc.
    eapply bind_run; [now apply send_bytes_run|].
    rewrite (bind_silent (attr _num_chars) _ self self (_num_chars self) eq_refl).
    destruct (next_line lines (_num_chars self)) as [line lines'].
    simpl in Hw. cbn [fst snd].
    eapply bind_run; [now apply send_line_run|apply IH].
Qed.

Lemma print_text_run (self : HD44780) (message : str) :
  four_data_pins self ->
  print_text message self
  = (self,
     transfers self (rendered (_lines self) (split message) (_num_chars self)),
     inr tt).
Proof.
  intros Hp. unfold print_text.
  rewrite (bind_silent (attr _lines) _ self self (_lines self) eq_refl).
  now apply print_lines_run.
Qed.

(** ** The rows as they are read *)

Lemma split_one_line (l : str) : one_line l -> split l = [l].
Proof.
  unfold one_line. induction l as [|c l IH]; intros H; simpl.
  - reflexivity.
  - destruct (Ascii.eqb_spec c newline) as [->|Hc].
    + exfalso. apply H. now left.
    + rewrite IH; [reflexivity|]. intros Hin. apply H. now right.
Qed.

Lemma split_line_then (l s : str) :
  one_line l -> split (l ++ newline :: s) = l :: split s.
Proof.
  unfold one_line. induction l as [|c l IH]; intros H; simpl.
  - reflexivity.
  - destruct (Ascii.eqb_spec c newline) as [->|Hc].
    + exfalso. apply H. now left.
    + rewrite IH; [reflexivity|]. intros Hin. apply H. now right.
Qed.

Lemma split_join (lines : list str) :
  lines <> [] -> Forall one_line lines -> split (join lines) = lines.
Proof.
  induction lines as [|l lines IH]; intros Hne Hall; [congruence|].
  inversion Hall as [|? ? Hl Hrest]; subst.
  destruct lines as [|l' lines].
  - simpl. now apply split_one_line.
  - change (join (l :: l' :: lines)) with (l ++ newline :: join (l' :: lines)).
    rewrite split_line_then by assumption.
    f_equal. apply IH; [discriminate|assumption].
Qed.

Lemma split_cons_shape (s : str) : exists l ls, split s = l :: ls.
Proof.
  induction s as [|c s (l & ls & IH)]; simpl.
  - now exists [], [].
  - destruct (Ascii.eqb c newline); [now exists [], (split s)|].
    rewrite IH. now exists (c :: l), ls.
Qed.

Lemma join_two (l l' : str) (ls : list str) :
  join (l :: l' :: ls) = l ++ newline :: join (l' :: ls).
Proof. reflexivity. Qed.

Lemma join_split (s : str) : join (split s) = s.
Proof.
  induction s as [|c s IH]; [reflexivity|].
  destruct (split_cons_shape s) as (l & ls & E).
  cbn [split]. rewrite E in *.
  destruct (Ascii.eqb_spec c newline) as [->|Hc].
  - rewrite join_two, IH. reflexivity.
  - destruct ls as [|l' ls].
    + cbn [join] in *. now rewrite IH.
    + rewrite join_two in *. rewrite <- IH. reflexivity.
Qed.

Lemma split_pieces (s : str) : Forall one_line (split s).
Proof.
  induction s as [|c s IH]; simpl.
  - repeat constructor. intros [].
  - destruct (Ascii.eqb_spec c newline) as [->|Hc].
    + constructor; [intros []|assumption].
    + destruct (split s) as [|l ls].
      * repeat constructor. intros [Heq|[]]. now apply Hc.
      * inversion IH as [|? ? Hl Hls]; subst.
        constructor; [|assumption].
        intros [Heq|Hin]; [now apply Hc|now apply Hl].
Qed.


Lemma firstn_blank (w : nat) : firstn w (repeat space w) = repeat space w.
Proof. apply firstn_all2. now rewrite repeat_length. Qed.

Lemma cut_rows_closed (n : nat) (lines : list str) (num_chars : Z) :
  map (firstn (Z.to_nat num_chars)) (formatted_lines n lines num_chars)
  = map (fun l => firstn (Z.to_nat num_chars)
                    (l ++ repeat space (Z.to_nat num_chars - length l)))
      (firstn n lines)
    ++ repeat (repeat space (Z.to_nat num_chars)) (n - length lines).
Proof.
  rewrite formatted_lines_closed, map_app, map_map, map_repeat.
  unfold ljust, spaces. now rewrite firstn_blank.
Qed.

Lemma row_transfers_cut (w : nat) (locations : list Z) : forall fs : list str,
  flat_map (fun al => row_transfers w (fst al) (snd al)) (combine locations fs)
  = flat_map
      (fun al => (MODE_COMMAND, fst al)
                 :: map (fun c => (MODE_DATA, ord c)) (snd al))
      (combine locations (map (firstn w) fs)).
Proof.
  induction locations as [|a locations IH]; intros [|f fs]; try reflexivity.
  cbn [map combine flat_map fst snd]. now rewrite IH.
Qed.



Lemma rendered_explicit (locations : list Z) (lines : list str) num_chars :
  rendered locations lines num_chars
  = flat_map
      (fun al => (MODE_COMMAND, fst al)
                 :: map (fun c => (MODE_DATA, ord c)) (snd al))
      (combine locations
         (map (fun l => firstn (Z.to_nat num_chars)
                          (l ++ repeat space (Z.to_nat num_chars - length l)))
            (firstn (length locations) lines)
          ++ repeat (repeat space (Z.to_nat num_chars))
               (length locations - length lines))).
Proof.
  unfold rendered. now rewrite row_transfers_cut, cut_rows_closed.
Qed.

(** C4.  With four data lines wired, [print_text] splits the message at
    line breaks and then, row by row in the order of the configured
    addresses, sends the row's address as one command transfer followed by
    exactly [num_chars] data transfers, the characters at positions
    0 .. num_chars-1 of the row's string from left to right; each transfer is
    what [_send_bytes] emits.  The text made of given lines with a line
    break between them puts line [i] on row [i], padded or cut to the width,
    and blanks the rows that have no line.  With 20 columns and rows at 0x80
    and 0xC0 the text "Hi" goes out as command 0x80, 'H', 'i', 18 spaces,
    command 0xC0, 20 spaces; the two lines "ab" and "cd" go out as command
    0x80, 'a', 'b', 18 spaces, command 0xC0, 'c', 'd', 18 spaces, and no
    line break is ever sent as data. *)
Theorem print_text_row_by_row (self : HD44780) (message : str) :
  four_data_pins self ->
  let w := Z.to_nat (_num_chars self) in
  let rows :=
    formatted_lines (length (_lines self)) (split message) (_num_chars self) in
  print_text message self
  = (self,
     transfers self
       (flat_map
          (fun al => (MODE_COMMAND, fst al)
                     :: map (fun c => (MODE_DATA, ord c)) (firstn w (snd al)))
          (combine (_lines self) rows)),
     inr tt)
  /\ length rows = length (_lines self)
  /\ (forall line, In line rows -> length (firstn w line) = w)
  /\ (forall v mode,
        _send_bytes v mode self = (self, byte_transfer self mode v, inr tt))
  /\ (forall rs e d0 d1 d2 d3,
        let lcd := {| _lcd_data_pins := [d0; d1; d2; d3];
                      _lcd_rs := rs;
                      _lcd_e := e;
                      _num_chars := 20;
                      _lines := [0x80; 0xC0] |} in
        print_text (lit "Hi") lcd
        = (lcd,
           transfers lcd
             ((MODE_COMMAND, 0x80)
              :: (MODE_DATA, ord "H") :: (MODE_DATA, ord "i")
              :: repeat (MODE_DATA, ord " ") 18
              ++ (MODE_COMMAND, 0xC0)
              :: repeat (MODE_DATA, ord " ") 20),
           inr tt))
  /\ (forall lines : list str,
        lines <> [] -> Forall one_line lines ->
        split (join lines) = lines
        /\ print_text (join lines) self
           = (self,
              transfers self
                (flat_map
                   (fun al => (MODE_COMMAND, fst al)
                              :: map (fun c => (MODE_DATA, ord c)) (snd al))
                   (combine (_lines self)
                      (map (fun l => firstn w (l ++ repeat space (w - length l)))
                         (firstn (length (_lines self)) lines)
                       ++ repeat (repeat space w)
                            (length (_lines self) - length lines)))),
              inr tt))
  /\ (forall l, In l (split message) -> ~ In newline l)
  /\ (forall rs e d0 d1 d2 d3,
        let lcd := {| _lcd_data_pins := [d0; d1; d2; d3];
                      _lcd_rs := rs;
                      _lcd_e := e;
                      _num_chars := 20;
                      _lines := [0x80; 0xC0] |} in
        let two_rows :=
          transfers lcd
            ((MODE_COMMAND, 0x80)
             :: (MODE_DATA, ord "a") :: (MODE_DATA, ord "b")
             :: repeat (MODE_DATA, ord " ") 18
             ++ (MODE_COMMAND, 0xC0)
             :: (MODE_DATA, ord "c") :: (MODE_DATA, ord "d")
             :: repeat (MODE_DATA, ord " ") 18) in
        print_text (lit "ab" ++ newline :: lit "cd") lcd
        = (lcd, two_rows, inr tt)
        /\ print_text (lit "ab" ++ newline :: lit "cd" ++ newline :: lit "ef")
             lcd
           = (lcd, two_rows, inr tt)
        /\ print_text (newline :: lit "cd") lcd
           = (lcd,
              transfers lcd
                ((MODE_COMMAND, 0x80) :: repeat (MODE_DATA, ord " ") 20
                 ++ (MODE_COMMAND, 0xC0)
                 :: (MODE_DATA, ord "c") :: (MODE_DATA, ord "d")
                 :: repeat (MODE_DATA, ord " ") 18),
              inr tt)).
Proof.
  intros Hp w rows.
  split; [|split; [|split; [|split; [|split; [|split; [|split]]]]]].
  - now apply print_text_run.
  - apply formatted_lines_length.
  - intros line Hin. apply formatted_lines_wide in Hin.
    rewrite length_firstn. fold w in Hin. lia.
  - intros v mode. now apply send_bytes_run.
  - intros rs e d0 d1 d2 d3 lcd. now rewrite print_text_run.
  - intros lines Hne Hall. split; [now apply split_join|].
    rewrite print_text_run by assumption.
    now rewrite split_join, rendered_explicit by assumption.
  - intros l Hin.
    pose proof (split_pieces message) as Hall.
    rewrite Forall_forall in Hall. now apply Hall.
  - intros rs e d0 d1 d2 d3 lcd two_rows.
    split; [|split]; now rewrite print_text_run.
Qed.

Lemma print_text_row_by_row_witness :
  print_text (lit "Hi") demo_lcd
  = (demo_lcd,
     transfers demo_lcd
       ((MODE_COMMAND, 0x80)
        :: (MODE_DATA, 72) :: (MODE_DATA, 105) :: repeat (MODE_DATA, 32) 18
        ++ (MODE_COMMAND, 0xC0) :: repeat (MODE_DATA, 32) 20
        ++ (MODE_COMMAND, 0x94) :: repeat (MODE_DATA, 32) 20
        ++ (MODE_COMMAND, 0xD4) :: repeat (MODE_DATA, 32) 20),
     inr tt)
  /\ split (join [lit "ab"; lit "cd"]) = [lit "ab"; lit "cd"]
  /\ print_text (join [lit "ab"; lit "cd"]) demo_lcd
     = (demo_lcd,
        transfers demo_lcd
          ((MODE_COMMAND, 0x80)
           :: (MODE_DATA, 97) :: (MODE_DATA, 98) :: repeat (MODE_DATA, 32) 18
           ++ (MODE_COMMAND, 0xC0)
           :: (MODE_DATA, 99) :: (MODE_DATA, 100) :: repeat (MODE_DATA, 32) 18
           ++ (MODE_COMMAND, 0x94) :: repeat (MODE_DATA, 32) 20
           ++ (MODE_COMMAND, 0xD4) :: repeat (MODE_DATA, 32) 20),
        inr tt).
Proof.
  destruct (print_text_row_by_row demo_lcd (lit "Hi") eq_refl)
    as (H1 & _ & _ & _ & _ & H6 & _).
  split; [exact H1|].
  apply (H6 [lit "ab"; lit "cd"]); [discriminate|].
  repeat constructor; unfold one_line; simpl;
    intros H; repeat destruct H as [H|H]; try discriminate H; exact H.
Defined.

(** ** Over-long lines and surplus lines *)

Lemma firstn_ljust (l : str) (num_chars : Z) :
  firstn (Z.to_nat num_chars) (ljust l num_chars)
  = firstn (Z.to_nat num_chars)
      (ljust (firstn (Z.to_nat num_chars) l) num_chars).
Proof.
  destruct (Nat.le_gt_cases (length l) (Z.to_nat num_chars)) as [Hle|Hgt].
  - now rewrite (firstn_all2 l) by assumption.
  - unfold ljust. rewrite length_firstn.
    replace (Z.to_nat num_chars - length l)%nat with 0%nat by lia.
    replace (Z.to_nat num_chars
             - Nat.min (Z.to_nat num_chars) (length l))%nat with 0%nat by lia.
    simpl. rewrite !app_nil_r, firstn_firstn. f_equal. lia.
Qed.

Lemma firstn_ljust_long (l : str) (num_chars : Z) :
  (Z.to_nat num_chars <= length l)%nat ->
  firstn (Z.to_nat num_chars) (ljust l num_chars)
  = firstn (Z.to_nat num_chars) l.
Proof.
  intros Hle. unfold ljust.
  replace (Z.to_nat num_chars - length l)%nat with 0%nat by lia.
  simpl. now rewrite app_nil_r.
Qed.

Lemma rows_ext (w : nat) (locations : list Z) : forall fs gs : list str,
  map (firstn w) fs = map (firstn w) gs ->
  flat_map (fun al => row_transfers w (fst al) (snd al)) (combine locations fs)
  = flat_map (fun al => row_transfers w (fst al) (snd al)) (combine locations gs).
Proof.
  induction locations as [|a locations IH]; intros fs gs H.
  - reflexivity.
  - destruct fs as [|f fs], gs as [|g gs]; try discriminate H.
    + reflexivity.
    + simpl in H. injection H as Hhd Htl. simpl.
      rewrite (IH fs gs Htl). unfold row_transfers. now rewrite Hhd.
Qed.

Lemma rendered_truncated (locations : list Z) (lines : list str) num_chars :
  rendered locations lines num_chars
  = rendered locations
      (map (firstn (Z.to_nat num_chars)) (firstn (length locations) lines))
      num_chars.
Proof.
  unfold rendered. apply rows_ext.
  rewrite !formatted_lines_closed, !map_app, !map_map.
  rewrite (firstn_all2 (map _ _))
    by (rewrite length_map, length_firstn; lia).
  rewrite map_map, length_map, length_firstn.
  f_equal.
  - apply map_ext. intros l. apply firstn_ljust.
  - do 2 f_equal. lia.
Qed.

(** C7.  With four data lines wired, what [print_text] sends is what it
    would send for the text with every line cut to its first [num_chars]
    characters and every line beyond the row count removed: the excess of a
    long line is not carried to the next row and surplus lines are never
    sent.  A line at least [num_chars] long in a row of the display has
    exactly its first [num_chars] characters sent, unmodified.  With 20 columns
    a 25-character line sends its first 20 characters and the second row is
    blank. *)
Theorem print_text_truncates (self : HD44780) (message : str) :
  four_data_pins self ->
  let w := Z.to_nat (_num_chars self) in
  let n := length (_lines self) in
  let lines := split message in
  let rows := formatted_lines n lines (_num_chars self) in
  print_text message self
  = (self, transfers self (rendered (_lines self) lines (_num_chars self)),
     inr tt)
  /\ rendered (_lines self) lines (_num_chars self)
     = rendered (_lines self) (map (firstn w) (firstn n lines))
         (_num_chars self)
  /\ (forall i l,
        (i < n)%nat -> nth_error lines i = Some l -> (w <= length l)%nat ->
        exists line,
          nth_error rows i = Some line
          /\ firstn w line = firstn w l
          /\ length (firstn w line) = w)
  /\ (forall rs e d0 d1 d2 d3,
        let lcd := {| _lcd_data_pins := [d0; d1; d2; d3];
                      _lcd_rs := rs;
                      _lcd_e := e;
                      _num_chars := 20;
                      _lines := [0x80; 0xC0] |} in
        print_text (lit "AAAAAAAAAAAAAAAAAAAAAAAAA") lcd
        = (lcd,
           transfers lcd
             ((MODE_COMMAND, 0x80) :: repeat (MODE_DATA, ord "A") 20
              ++ (MODE_COMMAND, 0xC0) :: repeat (MODE_DATA, ord " ") 20),
           inr tt)).
Proof.
  intros Hp w n lines rows. split; [|split; [|split]].
  - now apply print_text_run.
  - apply rendered_truncated.
  - intros i l Hi Hl Hw. exists (ljust l (_num_chars self)).
    split; [|split].
    + subst rows. rewrite formatted_lines_closed.
      assert (Hk : (i < length lines)%nat)
        by (apply nth_error_Some; rewrite Hl; discriminate).
      rewrite nth_error_app1 by (rewrite length_map, length_firstn; lia).
      rewrite nth_error_map, nth_error_firstn.
      destruct (Nat.ltb_spec i n) as [_|Hge]; [|lia].
      now rewrite Hl.
    + now apply firstn_ljust_long.
    + rewrite length_firstn, ljust_length. lia.
  - intros rs e d0 d1 d2 d3 lcd. now rewrite print_text_run.
Qed.

Lemma print_text_truncates_witness :
  print_text (lit "AAAAAAAAAAAAAAAAAAAAAAAAA") demo_lcd
  = (demo_lcd,
     transfers demo_lcd
       ((MODE_COMMAND, 0x80) :: repeat (MODE_DATA, 65) 20
        ++ (MODE_COMMAND, 0xC0) :: repeat (MODE_DATA, 32) 20
        ++ (MODE_COMMAND, 0x94) :: repeat (MODE_DATA, 32) 20
        ++ (MODE_COMMAND, 0xD4) :: repeat (MODE_DATA, 32) 20),
     inr tt)
  /\ exists line,
       nth_error (formatted_lines 4 (split (lit "AAAAAAAAAAAAAAAAAAAAAAAAA")) 20)
         0 = Some line
       /\ firstn 20 line = lit "AAAAAAAAAAAAAAAAAAAA"
       /\ length (firstn 20 line) = 20%nat.
Proof.
  destruct (print_text_truncates demo_lcd (lit "AAAAAAAAAAAAAAAAAAAAAAAAA")
              eq_refl) as (H1 & _ & H3 & _).
  split; [exact H1|].
  apply (H3 0%nat (lit "AAAAAAAAAAAAAAAAAAAAAAAAA")).
  - simpl. lia.
  - reflexivity.
  - simpl. lia.
Defined.

(** ** The instance is only read *)

Create HintDb frame.

Lemma keeps_state_ret {S A} (a : A) : keeps_state (@ret S A a).
Proof. intros s. reflexivity. Qed.

Lemma keeps_state_raise {S A} (x : exn) : keeps_state (@raise S A x).
Proof. intros s. reflexivity. Qed.

Lemma keeps_state_emit {S} (ev : event) : keeps_state (@emit S ev).
Proof. intros s. reflexivity. Qed.

Lemma keeps_state_attr {S A} (f : S -> A) : keeps_state (attr f).
Proof. intros s. reflexivity. Qed.

Lemma keeps_state_bind {S A B} (m : M S A) (f : A -> M S B) :
  keeps_state m -> (forall a, keeps_state (f a)) -> keeps_state (bind m f).
Proof.
  intros Hm Hf s. unfold bind. specialize (Hm s).
  destruct (m s) as [[s1 t1] [x|a]]; unfold state_of in *; simpl in *.
  - assumption.
  - specialize (Hf a s1). destruct (f a s1) as [[s2 t2] r].
    unfold state_of in Hf. simpl in *. congruence.
Qed.

Lemma keeps_state_for_each {S X} (xs : list X) (body : X -> M S unit) :
  (forall x, keeps_state (body x)) -> keeps_state (for_each xs body).
Proof.
  intros Hb. induction xs as [|x xs IH]; simpl.
  - apply keeps_state_ret.
  - apply keeps_state_bind; auto.
Qed.

#[local] Hint Resolve keeps_state_ret keeps_state_raise keeps_state_emit
  keeps_state_attr keeps_state_bind keeps_state_for_each : frame.

Lemma keeps_state_output_data {S} (pins : list Z) : forall data,
  keeps_state (@output_data S pins data).
Proof.
  induction pins as [|pin pins IH]; intros [|b data]; simpl;
    unfold GPIO_output; auto with frame.
Qed.

#[local] Hint Resolve keeps_state_output_data : frame.

Lemma keeps_state_send_data (mode : bool) (data : list bool) :
  keeps_state (_send_data mode data).
Proof.
  unfold _send_data, GPIO_output, time_sleep.
  repeat (apply keeps_state_bind; [auto with frame|intros ?]).
  auto with frame.
Qed.

#[local] Hint Resolve keeps_state_send_data : frame.

Lemma keeps_state_send_bytes (v : Z) (mode : bool) :
  keeps_state (_send_bytes v mode).
Proof. unfold _send_bytes. auto with frame. Qed.

#[local] Hint Resolve keeps_state_send_bytes : frame.

Lemma keeps_state_str_index {S} (line : str) (i : nat) :
  keeps_state (@str_index S line i).
Proof. unfold str_index. destruct (nth_error line i); auto with frame. Qed.

#[local] Hint Resolve keeps_state_str_index : frame.

Lemma keeps_state_send_line (line : str) : keeps_state (send_line line).
Proof.
  unfold send_line. apply keeps_state_bind; [auto with frame|].
  intros num_chars. apply keeps_state_for_each. auto with frame.
Qed.

#[local] Hint Resolve keeps_state_send_line : frame.

Lemma keeps_state_print_lines (locations : list Z) : forall lines,
  keeps_state (print_lines locations lines).
Proof.
  induction locations as [|a locations IH]; intros lines; simpl.
  - auto with frame.
  - apply keeps_state_bind; [auto with frame|]. intros _.
    apply keeps_state_bind; [auto with frame|]. intros num_chars.
    destruct (next_line lines num_chars) as [line lines'].
    auto with frame.
Qed.

Lemma keeps_state_init_lcd : keeps_state _init_lcd.
Proof. unfold _init_lcd. auto with frame. Qed.

Lemma keeps_state_print_text (message : str) :
  keeps_state (print_text message).
Proof.
  unfold print_text. apply keeps_state_bind; [auto with frame|].
  intros locations. apply keeps_state_print_lines.
Qed.

(** C6.  Calling [print_text] again with the same text, on the instance as
    the first call left it, repeats the first call: the same events in the
    same order and the same outcome.  This holds for every instance. *)
Theorem print_text_twice_same_trace (self : HD44780) (message : str) :
  let first := print_text message self in
  let second := print_text message (state_of first) in
  trace_of second = trace_of first
  /\ result_of second = result_of first
  /\ second = first.
Proof.
  intros first second. subst second first.
  rewrite (keeps_state_print_text message self). repeat split.
Qed.

(** C9.  [print_text] leaves the instance as it found it, whether it returns
    or raises: register-select pin, enable pin, data pins, column count and
    row addresses are the same after the call as before, and these five
    attributes are the whole instance.  The instance that construction
    returns holds the constructor's arguments. *)
Theorem print_text_keeps_configuration (self : HD44780) (message : str) :
  let self' := state_of (print_text message self) in
  _lcd_rs self' = _lcd_rs self
  /\ _lcd_e self' = _lcd_e self
  /\ _lcd_data_pins self' = _lcd_data_pins self
  /\ _num_chars self' = _num_chars self
  /\ _lines self' = _lines self
  /\ self' = {| _lcd_data_pins := _lcd_data_pins self;
                _lcd_rs := _lcd_rs self;
                _lcd_e := _lcd_e self;
                _num_chars := _num_chars self;
                _lines := _lines self |}
  /\ (forall gpio rs e data_pins num_chars lines gpio_mode,
        match snd (__init__ gpio rs e data_pins num_chars lines gpio_mode) with
        | inr made => made = {| _lcd_data_pins := data_pins;
                                _lcd_rs := rs;
                                _lcd_e := e;
                                _num_chars := num_chars;
                                _lines := lines |}
        | inl _ => True
        end).
Proof.
  intros self'. subst self'.
  rewrite (keeps_state_print_text message self).
  split; [|split; [|split; [|split; [|split; [|split]]]]];
    try reflexivity.
  - now destruct self.
  - intros gpio rs e data_pins num_chars lines gpio_mode. unfold __init__.
    destruct (configure gpio rs e data_pins gpio_mode tt) as [[u t] [x|u']];
      simpl; [exact I|].
    match goal with
    | |- context [_init_lcd ?s] =>
        pose proof (keeps_state_init_lcd s) as Hk;
        destruct (_init_lcd s) as [[made t'] [x|u'']]
    end; simpl; [exact I|exact Hk].
Qed.

(** ** Indexing the row string *)

Ltac no_raise := unfold avoids, result_of; simpl; discriminate.

Lemma avoids_bind {S A B} (x : exn) (m : M S A) (f : A -> M S B) (s : S) :
  avoids x m s ->
  (forall a s1 t1, m s = (s1, t1, inr a) -> avoids x (f a) s1) ->
  avoids x (bind m f) s.
Proof.
  unfold avoids, result_of, bind. intros Hm Hf.
  destruct (m s) as [[s1 t1] [y|a]]; simpl in *.
  - intros E. apply Hm. injection E as ->. reflexivity.
  - specialize (Hf a s1 t1 eq_refl).
    now destruct (f a s1) as [[s2 t2] r].
Qed.

Lemma avoids_output_data {S} (pins : list Z) : forall data (s : S),
  avoids IndexError_string (output_data pins data) s.
Proof.
  induction pins as [|pin pins IH]; intros [|b data] s; simpl;
    try no_raise.
  apply avoids_bind; [no_raise|]. intros _ s1 _ _. apply IH.
Qed.

Lemma avoids_send_data (mode : bool) (data : list bool) (s : HD44780) :
  avoids IndexError_string (_send_data mode data) s.
Proof.
  unfold _send_data, GPIO_output, time_sleep.
  repeat (apply avoids_bind; [first [no_raise | apply avoids_output_data]
                             | intros ? ? ? _]).
  no_raise.
Qed.

Lemma avoids_send_bytes (v : Z) (mode : bool) (s : HD44780) :
  avoids IndexError_string (_send_bytes v mode) s.
Proof.
  unfold _send_bytes. apply avoids_bind; [apply avoids_send_data|].
  intros _ s1 _ _. apply avoids_send_data.
Qed.

Lemma avoids_send_chars (line : str) (idxs : list nat) :
  (forall i, In i idxs -> (i < length line)%nat) ->
  forall s,
  avoids IndexError_string
    (for_each idxs
       (fun character_index =>
          c <- str_index line character_index ;;
          _send_bytes (ord c) MODE_DATA)) s.
Proof.
  induction idxs as [|i idxs IH]; intros Hin s; simpl.
  - no_raise.
  - apply avoids_bind.
    + assert (Hi : (i < length line)%nat) by (apply Hin; now left).
      unfold str_index. destruct (nth_error line i) as [c|] eqn:E.
      * unfold avoids. rewrite (bind_silent _ _ s s c eq_refl).
        apply avoids_send_bytes.
      * apply nth_error_None in E. lia.
    + intros _ s1 _ _. apply IH. intros j Hj. apply Hin. now right.
Qed.

Lemma range_bound (n : Z) (i : nat) : In i (range n) -> (i < Z.to_nat n)%nat.
Proof. unfold range. rewrite in_seq. lia. Qed.

Lemma avoids_send_line (line : str) (s : HD44780) :
  (Z.to_nat (_num_chars s) <= length line)%nat ->
  avoids IndexError_string (send_line line) s.
Proof.
  intros Hw. unfold send_line, avoids.
  rewrite (bind_silent (attr _num_chars) _ s s (_num_chars s) eq_refl).
  apply avoids_send_chars. intros i Hi. apply range_bound in Hi. lia.
Qed.

Lemma avoids_print_lines (locations : list Z) : forall lines s,
  avoids IndexError_string (print_lines locations lines) s.
Proof.
  induction locations as [|a locations IH]; intros lines s; simpl.
  - no_raise.
  - apply avoids_bind; [apply avoids_send_bytes|]. intros _ s1 _ _.
    unfold avoids.
    rewrite (bind_silent (attr _num_chars) _ s1 s1 (_num_chars s1) eq_refl).
    pose proof (next_line_wide lines (_num_chars s1)) as Hw.
    destruct (next_line lines (_num_chars s1)) as [line lines'].
    apply avoids_bind; [now apply avoids_send_line|].
    intros _ s2 _ _. apply IH.
Qed.

(** C10.  For every text and every instance, each string bound to [line] is
    at least [num_chars] long (a consumed input line left-justified to
    [num_chars]; a blank line exactly [num_chars] spaces), so every position
    of [range(num_chars)] holds a character and [print_text] never raises
    the string index error; with four data lines wired it returns. *)
Theorem print_text_index_in_bounds (self : HD44780) (message : str) :
  let w := Z.to_nat (_num_chars self) in
  let rows :=
    formatted_lines (length (_lines self)) (split message) (_num_chars self) in
  (forall line, In line rows -> (w <= length line)%nat)
  /\ (forall l, (w <= length (ljust l (_num_chars self)))%nat)
  /\ length (spaces (_num_chars self)) = w
  /\ (forall line i,
        In line rows -> In i (range (_num_chars self)) ->
        exists c, nth_error line i = Some c)
  /\ result_of (print_text message self) <> inl IndexError_string
  /\ (four_data_pins self -> result_of (print_text message self) = inr tt).
Proof.
  intros w rows. split; [|split; [|split; [|split; [|split]]]].
  - intros line Hin. now apply formatted_lines_wide in Hin.
  - intros l. rewrite ljust_length. lia.
  - apply spaces_length.
  - intros line i Hin Hi. apply formatted_lines_wide in Hin.
    apply range_bound in Hi.
    destruct (nth_error line i) as [c|] eqn:E; [now exists c|].
    apply nth_error_None in E. lia.
  - unfold print_text.
    rewrite (bind_silent (attr _lines) _ self self (_lines self) eq_refl).
    apply avoids_print_lines.
  - intros Hp. now rewrite print_text_run.
Qed.

Lemma print_text_index_in_bounds_witness :
  result_of (print_text [] demo_lcd) = inr tt
  /\ result_of
       (print_text
          (lit "one" ++ newline :: lit "two" ++ newline :: lit "three"
           ++ newline :: lit "four" ++ newline :: lit "five") demo_lcd)
     = inr tt.
Proof.
  split.
  - apply (print_text_index_in_bounds demo_lcd []). reflexivity.
  - apply (print_text_index_in_bounds demo_lcd). reflexivity.
Defined.

(** ** Construction *)

Lemma setup_pins_accepted {S} (gpio : GPIO) (pins : list Z) (s : S) :
  forallb (accepts_pin gpio) pins = true ->
  for_each pins (fun pin => GPIO_setup gpio pin OUT) s
  = (s, map (fun pin => Setup pin OUT) pins, inr tt).
Proof.
  induction pins as [|pin pins IH]; simpl; intros H.
  - reflexivity.
  - apply andb_prop in H as [Hpin Hrest].
    apply (bind_run _ _ s s [Setup pin OUT] tt).
    + unfold GPIO_setup. now rewrite Hpin.
    + now apply IH.
Qed.

Lemma setup_pins_rejected {S} (gpio : GPIO) (pins : list Z) (s : S) :
  forallb (accepts_pin gpio) pins = false ->
  exists t p,
    for_each pins (fun pin => GPIO_setup gpio pin OUT) s
    = (s, t, inl (GPIO_rejected_pin p))
    /\ existsb is_output t = false
    /\ In p pins /\ accepts_pin gpio p = false.
Proof.
  induction pins as [|pin pins IH]; simpl; intros H.
  - discriminate H.
  - destruct (accepts_pin gpio pin) eqn:Hpin; simpl in H.
    + destruct (IH H) as (t & p & Hrun & Hout & Hin & Hp).
      exists (Setup pin OUT :: t), p. repeat split; auto.
      apply (bind_run _ _ s s [Setup pin OUT] tt); [|exact Hrun].
      unfold GPIO_setup. now rewrite Hpin.
    + exists [], pin. repeat split; auto.
      apply bind_raise. unfold GPIO_setup. now rewrite Hpin.
Qed.

Lemma configure_accepted (gpio : GPIO) rs e data_pins gpio_mode :
  accepts_all gpio rs e data_pins gpio_mode = true ->
  configure gpio rs e data_pins gpio_mode tt
  = (tt, configured rs e data_pins gpio_mode, inr tt).
Proof.
  unfold accepts_all. intros H. apply andb_prop in H as [Hmode Hpins].
  unfold configure, GPIO_setmode. rewrite Hmode.
  apply (bind_run _ _ tt tt [Setmode gpio_mode] tt); [reflexivity|].
  apply (setup_pins_accepted gpio (rs :: e :: data_pins) tt Hpins).
Qed.

Lemma configure_rejected (gpio : GPIO) rs e data_pins gpio_mode :
  accepts_all gpio rs e data_pins gpio_mode = false ->
  exists t x,
    configure gpio rs e data_pins gpio_mode tt = (tt, t, inl x)
    /\ is_rejection x = true
    /\ existsb is_output t = false.
Proof.
  unfold accepts_all, configure, GPIO_setmode. intros H.
  destruct (accepts_mode gpio gpio_mode) eqn:Hmode; simpl in H.
  - destruct (setup_pins_rejected gpio (rs :: e :: data_pins) tt H)
      as (t & p & Hrun & Hout & _).
    exists (Setmode gpio_mode :: t), (GPIO_rejected_pin p).
    split; [|split; auto].
    apply (bind_run _ _ tt tt [Setmode gpio_mode] tt); [reflexivity|].
    exact Hrun.
  - exists [], (GPIO_rejected_mode gpio_mode). auto.
Qed.


Lemma init_lcd_run (self : HD44780) :
  four_data_pins self ->
  _init_lcd self
  = (self,
     transfers self
       [(MODE_COMMAND, 0x28); (MODE_COMMAND, 0x0C); (MODE_COMMAND, 0x01)],
     inr tt).
Proof.
  intros Hp. unfold _init_lcd.
  rewrite !transfers_cons.
  eapply bind_run; [now apply send_bytes_run|].
  eapply bind_run; [now apply send_bytes_run|].
  unfold transfers. simpl. rewrite app_nil_r. now apply send_bytes_run.
Qed.

Lemma init_accepted (gpio : GPIO) rs e data_pins num_chars lines gpio_mode :
  length data_pins = 4%nat ->
  accepts_all gpio rs e data_pins gpio_mode = true ->
  let self := {| _lcd_data_pins := data_pins;
                 _lcd_rs := rs;
                 _lcd_e := e;
                 _num_chars := num_chars;
                 _lines := lines |} in
  __init__ gpio rs e data_pins num_chars lines gpio_mode
  = (configured rs e data_pins gpio_mode
     ++ transfers self
          [(MODE_COMMAND, 0x28); (MODE_COMMAND, 0x0C); (MODE_COMMAND, 0x01)],
     inr self).
Proof.
  intros Hlen Hacc self. unfold __init__.
  rewrite configure_accepted by assumption.
  fold self. now rewrite (init_lcd_run self Hlen).
Qed.

Lemma init_rejected (gpio : GPIO) rs e data_pins num_chars lines gpio_mode :
  accepts_all gpio rs e data_pins gpio_mode = false ->
  exists t x,
    __init__ gpio rs e data_pins num_chars lines gpio_mode = (t, inl x)
    /\ is_rejection x = true
    /\ existsb is_output t = false.
Proof.
  intros Hrej.
  destruct (configure_rejected gpio rs e data_pins gpio_mode Hrej)
    as (t & x & Hrun & Hx & Ht).
  exists t, x. unfold __init__. rewrite Hrun. auto.
Qed.

(** C5.  On a platform that accepts the numbering and the six pins,
    construction configures the pins and then sends exactly three command
    transfers, 0x28, 0x0C and 0x01 in this order, before it returns the
    instance; the instance is what [print_text] needs, so no rendering comes
    before them.  The three bytes go out as the bit patterns 0010 1000,
    0000 1100 and 0000 0001, high nibble first. *)
Theorem construction_sends_init_sequence
    (gpio : GPIO) (rs e d0 d1 d2 d3 num_chars : Z) (lines : list Z)
    (gpio_mode : Z) :
  accepts_mode gpio gpio_mode = true ->
  forallb (accepts_pin gpio) [rs; e; d0; d1; d2; d3] = true ->
  let self := {| _lcd_data_pins := [d0; d1; d2; d3];
                 _lcd_rs := rs;
                 _lcd_e := e;
                 _num_chars := num_chars;
                 _lines := lines |} in
  __init__ gpio rs e [d0; d1; d2; d3] num_chars lines gpio_mode
  = ([ Setmode gpio_mode; Setup rs OUT; Setup e OUT;
       Setup d0 OUT; Setup d1 OUT; Setup d2 OUT; Setup d3 OUT ]
     ++ byte_transfer self MODE_COMMAND 0x28
     ++ byte_transfer self MODE_COMMAND 0x0C
     ++ byte_transfer self MODE_COMMAND 0x01,
     inr self)
  /\ _init_lcd self
     = bind (_send_bytes 0x28 MODE_COMMAND)
         (fun _ => bind (_send_bytes 0x0C MODE_COMMAND)
                     (fun _ => _send_bytes 0x01 MODE_COMMAND)) self
  /\ _init_lcd self
     = (self,
        byte_transfer self MODE_COMMAND 0x28
        ++ byte_transfer self MODE_COMMAND 0x0C
        ++ byte_transfer self MODE_COMMAND 0x01,
        inr tt)
  /\ byte_transfer self MODE_COMMAND 0x28
     = nibble_transfer self false [false; true; false; false]
       ++ nibble_transfer self false [false; false; false; true]
  /\ byte_transfer self MODE_COMMAND 0x0C
     = nibble_transfer self false [false; false; false; false]
       ++ nibble_transfer self false [false; false; true; true]
  /\ byte_transfer self MODE_COMMAND 0x01
     = nibble_transfer self false [false; false; false; false]
       ++ nibble_transfer self false [true; false; false; false].
Proof.
  intros Hmode Hpins self.
  assert (Hacc : accepts_all gpio rs e [d0; d1; d2; d3] gpio_mode = true)
    by (unfold accepts_all; now rewrite Hmode, Hpins).
  split; [|split; [|split; [|repeat split]]].
  - rewrite (init_accepted gpio rs e [d0; d1; d2; d3] num_chars lines gpio_mode
               eq_refl Hacc).
    reflexivity.
  - reflexivity.
  - rewrite (init_lcd_run self eq_refl). reflexivity.
Qed.

Lemma construction_sends_init_sequence_witness :
  __init__ any_pin 7 8 [25; 24; 23; 18] 20 [0x80; 0xC0; 0x94; 0xD4] BCM
  = ([ Setmode BCM; Setup 7 OUT; Setup 8 OUT;
       Setup 25 OUT; Setup 24 OUT; Setup 23 OUT; Setup 18 OUT ]
     ++ byte_transfer demo_lcd MODE_COMMAND 0x28
     ++ byte_transfer demo_lcd MODE_COMMAND 0x0C
     ++ byte_transfer demo_lcd MODE_COMMAND 0x01,
     inr demo_lcd).
Proof.
  exact (proj1 (construction_sends_init_sequence any_pin 7 8 25 24 23 18 20
                  [0x80; 0xC0; 0x94; 0xD4] BCM eq_refl eq_refl)).
Defined.

(** C8.  Construction either fails before anything is sent or succeeds
    whole.  When the platform rejects the numbering or one of the pins,
    [__init__] raises that rejection, returns no instance, and has written
    no pin: no part of the initialisation sequence went out.  When it accepts
    them all and four data pins are given, [__init__] returns the instance
    after the full initialisation sequence. *)
Theorem construction_all_or_nothing
    (gpio : GPIO) (rs e : Z) (data_pins : list Z) (num_chars : Z)
    (lines : list Z) (gpio_mode : Z) :
  let self := {| _lcd_data_pins := data_pins;
                 _lcd_rs := rs;
                 _lcd_e := e;
                 _num_chars := num_chars;
                 _lines := lines |} in
  let made := __init__ gpio rs e data_pins num_chars lines gpio_mode in
  (accepts_mode gpio gpio_mode
   && forallb (accepts_pin gpio) (rs :: e :: data_pins) = false ->
   exists t x,
     made = (t, inl x)
     /\ is_rejection x = true
     /\ existsb is_output t = false)
  /\ (accepts_mode gpio gpio_mode
      && forallb (accepts_pin gpio) (rs :: e :: data_pins) = true ->
      length data_pins = 4%nat ->
      made
      = (Setmode gpio_mode :: map (fun pin => Setup pin OUT) (rs :: e :: data_pins)
         ++ transfers self
              [(MODE_COMMAND, 0x28); (MODE_COMMAND, 0x0C); (MODE_COMMAND, 0x01)],
         inr self)).
Proof.
  intros self made. split.
  - intros Hrej. now apply init_rejected.
  - intros Hacc Hlen.
    apply (init_accepted gpio rs e data_pins num_chars lines gpio_mode Hlen Hacc).
Qed.

Lemma construction_all_or_nothing_witness :
  (exists t x,
     __init__ no_pin_18 7 8 [25; 24; 23; 18] 20 [0x80; 0xC0; 0x94; 0xD4] BCM
     = (t, inl x)
     /\ is_rejection x = true
     /\ existsb is_output t = false)
  /\ __init__ any_pin 7 8 [25; 24; 23; 18] 20 [0x80; 0xC0; 0x94; 0xD4] BCM
     = (Setmode BCM :: map (fun pin => Setup pin OUT) [7; 8; 25; 24; 23; 18]
        ++ transfers demo_lcd
             [(MODE_COMMAND, 0x28); (MODE_COMMAND, 0x0C); (MODE_COMMAND, 0x01)],
        inr demo_lcd).
Proof.
  split.
  - apply (construction_all_or_nothing no_pin_18 7 8 [25; 24; 23; 18] 20
             [0x80; 0xC0; 0x94; 0xD4] BCM).
    reflexivity.
  - apply (construction_all_or_nothing any_pin 7 8 [25; 24; 23; 18] 20
             [0x80; 0xC0; 0x94; 0xD4] BCM); reflexivity.
Defined.

(** Outside the data model: with a fifth data pin the nibble's four bits run
    out, and construction raises in the middle of the first transfer even
    though the platform accepted every pin. *)
Remark five_data_pins_raise :
  let made := __init__ any_pin 7 8 [25; 24; 23; 18; 15] 20 [0x80; 0xC0] BCM in
  snd made = inl IndexError_pop
  /\ fst made
     = [ Setmode BCM; Setup 7 OUT; Setup 8 OUT;
         Setup 25 OUT; Setup 24 OUT; Setup 23 OUT; Setup 18 OUT; Setup 15 OUT;
         Output 7 false;
         Output 25 false; Output 24 true; Output 23 false; Output 18 false ].
Proof. split; reflexivity. Qed.

(** ** Beyond eight bits, and other pin counts *)

Lemma low_bits_mod (v k : Z) :
  0 <= k < 8 -> Z.testbit (v mod 256) k = Z.testbit v k.
Proof.
  intros Hk. change 256 with (2 ^ 8). apply Z.mod_pow2_bits_low. lia.
Qed.

Lemma low_bits_determine (v v' : Z) :
  (forall k, 0 <= k < 8 -> Z.testbit v k = Z.testbit v' k) ->
  v mod 256 = v' mod 256.
Proof.
  intros H. apply Z.bits_inj'. intros n Hn. change 256 with (2 ^ 8).
  destruct (Z.lt_ge_cases n 8) as [Hlt|Hge].
  - rewrite !Z.mod_pow2_bits_low by lia. apply H. lia.
  - now rewrite !Z.mod_pow2_bits_high by lia.
Qed.

(** X1.  A byte transfer looks only at the low eight bits of its argument:
    sending [v] and sending [v mod 256] are the same computation, on every
    instance and in both modes. *)
Theorem send_bytes_low_eight_bits (self : HD44780) (v : Z) (mode : bool) :
  _send_bytes v mode self = _send_bytes (v mod 256) mode self.
Proof.
  unfold _send_bytes.
  rewrite (high_nibble v), (low_nibble v).
  rewrite (high_nibble (v mod 256)), (low_nibble (v mod 256)).
  now rewrite !low_bits_mod by lia.
Qed.

(** X2.  With four data lines wired the wire format loses nothing of a byte:
    two byte transfers that emit the same events were sent in the same mode
    and carry the same low eight bits. *)
Theorem send_bytes_trace_determines_byte
    (self : HD44780) (v v' : Z) (mode mode' : bool) :
  four_data_pins self ->
  trace_of (_send_bytes v mode self) = trace_of (_send_bytes v' mode' self) ->
  mode = mode' /\ v mod 256 = v' mod 256.
Proof.
  intros Hp. rewrite !send_bytes_run by assumption.
  unfold trace_of, byte_transfer, nibble_transfer, four_data_pins in *.
  destruct (_lcd_data_pins self) as [|d0 [|d1 [|d2 [|d3 [|d4 rest]]]]];
    try discriminate Hp.
  simpl. intros H.
  injection H as Hm H4 H5 H6 H7 _ H0 H1 H2 H3.
  split; [assumption|].
  apply low_bits_determine. intros k Hk.
  assert (Hc : k = 0 \/ k = 1 \/ k = 2 \/ k = 3
               \/ k = 4 \/ k = 5 \/ k = 6 \/ k = 7) by lia.
  destruct Hc as [->|[->|[->|[->|[->|[->|[->| ->]]]]]]]; assumption.
Qed.

Lemma send_bytes_trace_determines_byte_witness :
  MODE_DATA = MODE_DATA /\ 0x141 mod 256 = 0x41 mod 256.
Proof.
  apply (send_bytes_trace_determines_byte demo_lcd 0x141 0x41
           MODE_DATA MODE_DATA); reflexivity.
Defined.

Lemma output_data_short {S} (pins : list Z) : forall (data : list bool) (s : S),
  (length data < length pins)%nat ->
  output_data pins data s
  = (s, map (fun pb => Output (fst pb) (snd pb)) (combine pins data),
     inl IndexError_pop).
Proof.
  induction pins as [|pin pins IH]; intros data s Hlen; simpl in Hlen.
  - lia.
  - destruct data as [|b data]; simpl in Hlen.
    + reflexivity.
    + simpl. apply (bind_run _ _ s s [Output pin b] tt); [reflexivity|].
      apply IH. lia.
Qed.

Lemma send_data_fits (self : HD44780) (mode : bool) (data : list bool) :
  (length (_lcd_data_pins self) <= length data)%nat ->
  _send_data mode data self = (self, nibble_transfer self mode data, inr tt).
Proof.
  intros Hlen.
  unfold _send_data, nibble_transfer, bind, attr, GPIO_output, time_sleep, emit.
  rewrite output_data_run by assumption. reflexivity.
Qed.

Lemma send_data_overrun (self : HD44780) (mode : bool) (data : list bool) :
  (length data < length (_lcd_data_pins self))%nat ->
  _send_data mode data self
  = (self,
     Output (_lcd_rs self) mode
     :: map (fun pb => Output (fst pb) (snd pb))
          (combine (_lcd_data_pins self) data),
     inl IndexError_pop).
Proof.
  intros Hlen.
  unfold _send_data, bind, attr, GPIO_output, time_sleep, emit.
  rewrite output_data_short by assumption. simpl.
  rewrite ?app_nil_r. reflexivity.
Qed.

(** X3.  A nibble transfer depends on the number of data pins.  With no
    more pins than bits it returns, writing one bit per pin in order and
    leaving the bits beyond the last pin unwritten.  With more pins than bits
    it writes register select and one bit per available bit, then raises the
    pop error before any wait and before the enable line is touched. *)
Theorem send_data_by_pin_count
    (self : HD44780) (mode : bool) (data : list bool) :
  let rs := _lcd_rs self in
  let e := _lcd_e self in
  let written :=
    map (fun pb => Output (fst pb) (snd pb))
      (combine (_lcd_data_pins self) data) in
  _send_data mode data self
  = if (length (_lcd_data_pins self) <=? length data)%nat
    then (self,
          Output rs mode :: written
          ++ [ Sleep DEFAULT_DELAY;
               Output e true; Sleep DEFAULT_DELAY;
               Output e false; Sleep DEFAULT_DELAY ],
          inr tt)
    else (self, Output rs mode :: written, inl IndexError_pop).
Proof.
  intros rs e written.
  destruct (Nat.leb_spec (length (_lcd_data_pins self)) (length data)).
  - now rewrite send_data_fits.
  - now rewrite send_data_overrun.
Qed.

Lemma send_bytes_overrun (self : HD44780) (v : Z) (mode : bool) :
  (4 < length (_lcd_data_pins self))%nat ->
  _send_bytes v mode self
  = (self,
     Output (_lcd_rs self) mode
     :: map (fun pb => Output (fst pb) (snd pb))
          (combine (_lcd_data_pins self)
             [Z.testbit v 4; Z.testbit v 5; Z.testbit v 6; Z.testbit v 7]),
     inl IndexError_pop).
Proof.
  intros Hlen. unfold _send_bytes. rewrite high_nibble.
  apply bind_raise. now apply send_data_overrun.
Qed.

(** X4.  With more than four data pins nothing can be sent.  Every byte
    transfer raises the pop error in its first nibble, after writing register
    select and the first four data pins and before the enable line is
    strobed.  So [print_text] raises at the address of its first row (and
    returns without an event when there are no rows), and construction
    raises at its first command although the platform accepted every pin. *)
Theorem too_many_data_pins_raise (self : HD44780) :
  (4 < length (_lcd_data_pins self))%nat ->
  let rs := _lcd_rs self in
  let first_nibble (v : Z) (mode : bool) :=
    Output rs mode
    :: map (fun pb => Output (fst pb) (snd pb))
         (combine (_lcd_data_pins self)
            [Z.testbit v 4; Z.testbit v 5; Z.testbit v 6; Z.testbit v 7]) in
  (forall v mode,
     _send_bytes v mode self = (self, first_nibble v mode, inl IndexError_pop))
  /\ (forall message a rest,
        _lines self = a :: rest ->
        print_text message self
        = (self, first_nibble a MODE_COMMAND, inl IndexError_pop))
  /\ (forall message,
        _lines self = [] -> print_text message self = (self, [], inr tt))
  /\ (forall gpio gpio_mode,
        accepts_all gpio rs (_lcd_e self) (_lcd_data_pins self) gpio_mode = true ->
        __init__ gpio rs (_lcd_e self) (_lcd_data_pins self)
          (_num_chars self) (_lines self) gpio_mode
        = (configured rs (_lcd_e self) (_lcd_data_pins self) gpio_mode
           ++ first_nibble 0x28 MODE_COMMAND,
           inl IndexError_pop)).
Proof.
  intros Hlen rs first_nibble. split; [|split; [|split]].
  - intros v mode. now apply send_bytes_overrun.
  - intros message a rest Hrows. unfold print_text.
    rewrite (bind_silent (attr _lines) _ self self (_lines self) eq_refl).
    rewrite Hrows. cbn [print_lines].
    apply bind_raise. now apply send_bytes_overrun.
  - intros message Hrows. unfold print_text.
    rewrite (bind_silent (attr _lines) _ self self (_lines self) eq_refl).
    now rewrite Hrows.
  - intros gpio gpio_mode Hacc.
    assert (Hinit : _init_lcd self
                    = (self, first_nibble 0x28 MODE_COMMAND, inl IndexError_pop)).
    { unfold _init_lcd. apply bind_raise. now apply send_bytes_overrun. }
    assert (Heta : {| _lcd_data_pins := _lcd_data_pins self;
                      _lcd_rs := rs;
                      _lcd_e := _lcd_e self;
                      _num_chars := _num_chars self;
                      _lines := _lines self |} = self)
      by now destruct self.
    unfold __init__. rewrite configure_accepted by assumption.
    cbv zeta. rewrite Heta, Hinit. reflexivity.
Qed.

Lemma too_many_data_pins_raise_witness :
  print_text (lit "Hi") five_pin_lcd
  = (five_pin_lcd,
     [ Output 7 false;
       Output 25 false; Output 24 false; Output 23 false; Output 18 true ],
     inl IndexError_pop).
Proof.
  assert (H : (4 < length (_lcd_data_pins five_pin_lcd))%nat) by (simpl; lia).
  exact (proj1 (proj2 (too_many_data_pins_raise five_pin_lcd H))
           (lit "Hi") 0x80 [0xC0] eq_refl).
Defined.

(** ** The cost of a rendering *)

Lemma sleeps_app (t u : list event) : sleeps (t ++ u) = sleeps t ++ sleeps u.
Proof.
  induction t as [|ev t IH]; [reflexivity|].
  destruct ev; simpl; now rewrite IH.
Qed.

Lemma writes_to_app (pin : Z) (t u : list event) :
  writes_to pin (t ++ u) = writes_to pin t ++ writes_to pin u.
Proof.
  induction t as [|ev t IH]; [reflexivity|].
  destruct ev; simpl; try assumption.
  destruct (pin0 =? pin); simpl; now rewrite IH.
Qed.

Lemma byte_transfer_length (self : HD44780) (mode : bool) (v : Z) :
  four_data_pins self -> length (byte_transfer self mode v) = 20%nat.
Proof.
  unfold four_data_pins, byte_transfer, nibble_transfer. intros Hp.
  destruct (_lcd_data_pins self) as [|d0 [|d1 [|d2 [|d3 [|d4 rest]]]]];
    try discriminate Hp.
  reflexivity.
Qed.

Lemma byte_transfer_sleeps (self : HD44780) (mode : bool) (v : Z) :
  sleeps (byte_transfer self mode v) = repeat DEFAULT_DELAY 6.
Proof.
  assert (Hn : forall bits,
             sleeps (nibble_transfer self mode bits) = repeat DEFAULT_DELAY 3).
  { intros bits. unfold nibble_transfer.
    change (Output (_lcd_rs self) mode :: ?t ++ ?u)
      with ((Output (_lcd_rs self) mode :: t) ++ u).
    rewrite sleeps_app. simpl.
    generalize (combine (_lcd_data_pins self) bits) as l.
    induction l as [|pb l IH]; [reflexivity|exact IH]. }
  unfold byte_transfer. now rewrite sleeps_app, !Hn.
Qed.

Lemma transfers_length (self : HD44780) (xs : list (bool * Z)) :
  four_data_pins self ->
  length (transfers self xs) = (20 * length xs)%nat.
Proof.
  intros Hp. induction xs as [|[m v] xs IH]; [reflexivity|].
  rewrite transfers_cons, length_app, byte_transfer_length, IH by assumption.
  simpl length. lia.
Qed.

Lemma transfers_sleeps (self : HD44780) (xs : list (bool * Z)) :
  sleeps (transfers self xs) = repeat DEFAULT_DELAY (6 * length xs).
Proof.
  induction xs as [|[m v] xs IH]; [reflexivity|].
  rewrite transfers_cons, sleeps_app, byte_transfer_sleeps, IH.
  rewrite <- repeat_app. f_equal. simpl length. lia.
Qed.

Lemma rendered_length (locations : list Z) : forall lines num_chars,
  length (rendered locations lines num_chars)
  = (length locations * (1 + Z.to_nat num_chars))%nat.
Proof.
  induction locations as [|a locations IH]; intros lines num_chars.
  - reflexivity.
  - rewrite rendered_cons, length_app, IH.
    pose proof (next_line_wide lines num_chars) as Hw.
    unfold row_transfers. simpl length.
    rewrite length_map, length_firstn. lia.
Qed.

(** X5.  With four data lines wired a rendering costs the same whatever the
    text: for [n] rows of [w] columns it makes [n * (1 + w)] byte transfers,
    that is [20 * n * (1 + w)] collaborator calls of which [6 * n * (1 + w)]
    are waits of the fixed delay. *)
Theorem print_text_cost (self : HD44780) (message : str) :
  four_data_pins self ->
  let n := length (_lines self) in
  let w := Z.to_nat (_num_chars self) in
  let t := trace_of (print_text message self) in
  length (rendered (_lines self) (split message) (_num_chars self))
  = (n * (1 + w))%nat
  /\ length t = (20 * (n * (1 + w)))%nat
  /\ sleeps t = repeat DEFAULT_DELAY (6 * (n * (1 + w))).
Proof.
  intros Hp n w t. subst t. rewrite print_text_run by assumption.
  unfold trace_of. simpl.
  rewrite transfers_length, transfers_sleeps, rendered_length by assumption.
  repeat split.
Qed.

Lemma print_text_cost_witness :
  length (trace_of (print_text (lit "Hi") demo_lcd)) = 1680%nat.
Proof.
  exact (proj1 (proj2 (print_text_cost demo_lcd (lit "Hi") eq_refl))).
Defined.

Lemma byte_transfer_strobes (self : HD44780) (mode : bool) (v : Z) :
  four_data_pins self ->
  ~ In (_lcd_e self) (_lcd_rs self :: _lcd_data_pins self) ->
  writes_to (_lcd_e self) (byte_transfer self mode v)
  = [true; false; true; false].
Proof.
  unfold four_data_pins, byte_transfer, nibble_transfer. intros Hp Hnot.
  destruct (_lcd_data_pins self) as [|d0 [|d1 [|d2 [|d3 [|d4 rest]]]]];
    try discriminate Hp.
  simpl in Hnot. simpl. rewrite Z.eqb_refl.
  repeat match goal with
         | |- context [?p =? _lcd_e self] =>
             destruct (Z.eqb_spec p (_lcd_e self)); [exfalso; tauto|]
         end.
  reflexivity.
Qed.

Lemma transfers_strobes (self : HD44780) (xs : list (bool * Z)) :
  four_data_pins self ->
  ~ In (_lcd_e self) (_lcd_rs self :: _lcd_data_pins self) ->
  writes_to (_lcd_e self) (transfers self xs)
  = concat (repeat [true; false] (2 * length xs)).
Proof.
  intros Hp Hnot. induction xs as [|[m v] xs IH]; [reflexivity|].
  rewrite transfers_cons, writes_to_app, byte_transfer_strobes, IH
    by assumption.
  simpl length. replace (2 * S (length xs))%nat
    with (S (S (2 * length xs))) by lia.
  reflexivity.
Qed.

Lemma pulses_edges (k : nat) :
  rising_edges false (concat (repeat [true; false] k)) = k
  /\ falling_edges false (concat (repeat [true; false] k)) = k
  /\ last (concat (repeat [true; false] k)) false = false.
Proof.
  induction k as [|k (Hr & Hf & Hl)]; [now repeat split|].
  cbn [repeat concat app rising_edges falling_edges negb andb].
  rewrite Hr, Hf. repeat split.
  cbn [last].
  destruct (concat (repeat [true; false] k)); [reflexivity|exact Hl].
Qed.

(** X6.  With four data lines wired and an enable pin that is none of the
    other five, a whole rendering writes the enable pin high, low, high,
    low, ...: two pulses per byte transfer, [2 * n * (1 + w)] rising and as
    many falling edges from a line that starts low, and the line is left
    low at the end. *)
Theorem print_text_strobes (self : HD44780) (message : str) :
  four_data_pins self ->
  ~ In (_lcd_e self) (_lcd_rs self :: _lcd_data_pins self) ->
  let k := (2 * (length (_lines self) * (1 + Z.to_nat (_num_chars self))))%nat in
  let ws := writes_to (_lcd_e self) (trace_of (print_text message self)) in
  ws = concat (repeat [true; false] k)
  /\ rising_edges false ws = k
  /\ falling_edges false ws = k
  /\ last ws false = false.
Proof.
  intros Hp Hnot k ws.
  assert (Hws : ws = concat (repeat [true; false] k)).
  { subst ws k. rewrite print_text_run by assumption.
    unfold trace_of. simpl fst. simpl snd.
    now rewrite transfers_strobes, rendered_length by assumption. }
  rewrite Hws. split; [reflexivity|]. apply pulses_edges.
Qed.

Lemma print_text_strobes_witness :
  rising_edges false
    (writes_to 8 (trace_of (print_text (lit "Hi") demo_lcd))) = 168%nat.
Proof.
  refine (proj1 (proj2 (print_text_strobes demo_lcd (lit "Hi") eq_refl _))).
  simpl. intros [H|[H|[H|[H|[H|[]]]]]]; discriminate H.
Defined.

(** ** The pins a method touches *)

Lemma trace_bind {S A B} (P : event -> Prop) (m : M S A) (f : A -> M S B) s :
  keeps_state m ->
  Forall P (trace_of (m s)) ->
  (forall a, result_of (m s) = inr a -> Forall P (trace_of (f a s))) ->
  Forall P (trace_of (bind m f s)).
Proof.
  intros Hk Hm Hf. specialize (Hk s).
  unfold bind, trace_of, state_of, result_of in *.
  destruct (m s) as [[s1 t1] [x|a]]; simpl in *; [assumption|].
  subst s1. specialize (Hf a eq_refl).
  destruct (f a s) as [[s2 t2] r]. simpl in *.
  apply Forall_app. now split.
Qed.

Lemma trace_attr {S A B} (P : event -> Prop) (g : S -> A) (f : A -> M S B) s :
  Forall P (trace_of (f (g s) s)) ->
  Forall P (trace_of (bind (attr g) f s)).
Proof.
  intros H. now rewrite (bind_silent (attr g) f s s (g s) eq_refl).
Qed.

Lemma trace_for_each {S X} (P : event -> Prop) (xs : list X)
    (body : X -> M S unit) s :
  (forall x, keeps_state (body x)) ->
  (forall x, Forall P (trace_of (body x s))) ->
  Forall P (trace_of (for_each xs body s)).
Proof.
  intros Hk Hb. induction xs as [|x xs IH]; simpl.
  - constructor.
  - apply trace_bind; auto.
Qed.

Lemma output_data_own {S} (P : event -> Prop) (pins : list Z) :
  (forall p b, In p pins -> P (Output p b)) ->
  forall data (s : S), Forall P (trace_of (output_data pins data s)).
Proof.
  induction pins as [|pin pins IH]; intros Hin data s.
  - constructor.
  - destruct data as [|b data]; simpl; [constructor|].
    apply trace_bind.
    + unfold GPIO_output. apply keeps_state_emit.
    + repeat constructor. apply Hin. now left.
    + intros _ _. apply IH. intros p b' Hp. apply Hin. now right.
Qed.

Lemma emit_own {S} (P : event -> Prop) (ev : event) (s : S) :
  P ev -> Forall P (trace_of (emit ev s)).
Proof. intros H. now repeat constructor. Qed.

Lemma send_data_own (self : HD44780) (mode : bool) (data : list bool) :
  Forall (driver_event self) (trace_of (_send_data mode data self)).
Proof.
  unfold _send_data, GPIO_output, time_sleep.
  apply trace_attr.
  apply trace_bind; [auto with frame|apply emit_own; simpl; tauto|intros _ _].
  apply trace_attr.
  apply trace_bind; [auto with frame| |intros _ _].
  { apply output_data_own. intros p b Hp. simpl. tauto. }
  apply trace_bind; [auto with frame|now apply emit_own|intros _ _].
  apply trace_attr.
  apply trace_bind; [auto with frame|apply emit_own; simpl; tauto|intros _ _].
  apply trace_bind; [auto with frame|now apply emit_own|intros _ _].
  apply trace_attr.
  apply trace_bind; [auto with frame|apply emit_own; simpl; tauto|intros _ _].
  now apply emit_own.
Qed.

Lemma send_bytes_own (self : HD44780) (v : Z) (mode : bool) :
  Forall (driver_event self) (trace_of (_send_bytes v mode self)).
Proof.
  unfold _send_bytes.
  apply trace_bind; [auto with frame|apply send_data_own|].
  intros _ _. apply send_data_own.
Qed.

Lemma str_index_silent (self : HD44780) (line : str) (i : nat) :
  trace_of (str_index line i self) = [].
Proof. unfold str_index. now destruct (nth_error line i). Qed.

Lemma send_line_own (self : HD44780) (line : str) :
  Forall (driver_event self) (trace_of (send_line line self)).
Proof.
  unfold send_line. apply trace_attr.
  apply trace_for_each; [auto with frame|]. intros i.
  apply trace_bind; [auto with frame| |].
  - rewrite str_index_silent. constructor.
  - intros c _. apply send_bytes_own.
Qed.

Lemma print_lines_own (self : HD44780) (locations : list Z) : forall lines,
  Forall (driver_event self) (trace_of (print_lines locations lines self)).
Proof.
  induction locations as [|a locations IH]; intros lines; simpl.
  - constructor.
  - apply trace_bind; [auto with frame|apply send_bytes_own|]. intros _ _.
    apply trace_attr.
    destruct (next_line lines (_num_chars self)) as [line lines'].
    apply trace_bind; [auto with frame|apply send_line_own|].
    intros _ _. apply IH.
Qed.

(** X7.  Whatever the instance and the text, and whether they return or
    raise, [print_text] and the initialisation sequence call the
    collaborators only to write one of the instance's own pins (register
    select, enable, a data pin) or to wait the fixed delay: they never
    write another pin, never reconfigure one and never change the
    numbering. *)
Theorem methods_touch_own_pins_only (self : HD44780) (message : str) :
  Forall (driver_event self) (trace_of (print_text message self))
  /\ Forall (driver_event self) (trace_of (_init_lcd self)).
Proof.
  split.
  - unfold print_text. apply trace_attr. apply print_lines_own.
  - unfold _init_lcd.
    repeat (apply trace_bind;
            [auto with frame|apply send_bytes_own|intros _ _]).
    apply send_bytes_own.
Qed.

Lemma rendered_no_columns (locations : list Z) : forall lines num_chars,
  num_chars <= 0 ->
  rendered locations lines num_chars
  = map (fun a => (MODE_COMMAND, a)) locations.
Proof.
  induction locations as [|a locations IH]; intros lines num_chars Hw.
  - reflexivity.
  - rewrite rendered_cons, IH by assumption.
    unfold row_transfers. replace (Z.to_nat num_chars) with 0%nat by lia.
    reflexivity.
Qed.

(** X8.  With four data lines wired and a column count of zero or less,
    [print_text] sends nothing of the text: only the address command of
    each row, in order. *)
Theorem print_text_no_columns (self : HD44780) (message : str) :
  four_data_pins self ->
  _num_chars self <= 0 ->
  print_text message self
  = (self,
     transfers self (map (fun a => (MODE_COMMAND, a)) (_lines self)),
     inr tt).
Proof.
  intros Hp Hw. rewrite print_text_run by assumption.
  now rewrite rendered_no_columns.
Qed.

Lemma print_text_no_columns_witness :
  print_text (lit "Hi")
    {| _lcd_data_pins := [25; 24; 23; 18];
       _lcd_rs := 7; _lcd_e := 8; _num_chars := 0; _lines := [0x80; 0xC0] |}
  = ({| _lcd_data_pins := [25; 24; 23; 18];
        _lcd_rs := 7; _lcd_e := 8; _num_chars := 0; _lines := [0x80; 0xC0] |},
     transfers
       {| _lcd_data_pins := [25; 24; 23; 18];
          _lcd_rs := 7; _lcd_e := 8; _num_chars := 0; _lines := [0x80; 0xC0] |}
       [(MODE_COMMAND, 0x80); (MODE_COMMAND, 0xC0)],
     inr tt).
Proof.
  apply (print_text_no_columns
           {| _lcd_data_pins := [25; 24; 23; 18];
              _lcd_rs := 7; _lcd_e := 8; _num_chars := 0;
              _lines := [0x80; 0xC0] |} (lit "Hi")).
  - reflexivity.
  - simpl. lia.
Defined.

(** ** The first rejection *)

Lemma setup_pins_first_rejected {S} (gpio : GPIO) (pre : list Z) (p : Z)
    (post : list Z) (s : S) :
  forallb (accepts_pin gpio) pre = true ->
  accepts_pin gpio p = false ->
  for_each (pre ++ p :: post) (fun pin => GPIO_setup gpio pin OUT) s
  = (s, map (fun pin => Setup pin OUT) pre, inl (GPIO_rejected_pin p)).
Proof.
  intros Hpre Hp. induction pre as [|q pre IH]; simpl in *.
  - apply bind_raise. unfold GPIO_setup. now rewrite Hp.
  - apply andb_prop in Hpre as [Hq Hpre].
    apply (bind_run _ _ s s [Setup q OUT] tt).
    + unfold GPIO_setup. now rewrite Hq.
    + now apply IH.
Qed.

(** X9.  Construction stops at the first thing the platform rejects and
    undoes nothing.  A rejected numbering raises before any call is made.
    Otherwise register select, enable and the data pins are set up in this
    order; the first rejected pin raises its rejection, the pins before it
    stay set up as outputs, the pins after it are never set up, and no pin
    is written. *)
Theorem construction_stops_at_first_rejection
    (gpio : GPIO) (rs e : Z) (data_pins : list Z) (num_chars : Z)
    (lines : list Z) (gpio_mode : Z) :
  let made := __init__ gpio rs e data_pins num_chars lines gpio_mode in
  (accepts_mode gpio gpio_mode = false ->
   made = ([], inl (GPIO_rejected_mode gpio_mode)))
  /\ (forall pre p post,
        accepts_mode gpio gpio_mode = true ->
        rs :: e :: data_pins = pre ++ p :: post ->
        forallb (accepts_pin gpio) pre = true ->
        accepts_pin gpio p = false ->
        made
        = (Setmode gpio_mode :: map (fun pin => Setup pin OUT) pre,
           inl (GPIO_rejected_pin p))).
Proof.
  intros made. subst made. unfold __init__. split.
  - intros Hmode.
    assert (Hc : configure gpio rs e data_pins gpio_mode tt
                 = (tt, [], inl (GPIO_rejected_mode gpio_mode))).
    { unfold configure. apply bind_raise.
      unfold GPIO_setmode. now rewrite Hmode. }
    now rewrite Hc.
  - intros pre p post Hmode Hsplit Hpre Hp.
    assert (Hc : configure gpio rs e data_pins gpio_mode tt
                 = (tt, Setmode gpio_mode :: map (fun pin => Setup pin OUT) pre,
                    inl (GPIO_rejected_pin p))).
    { unfold configure.
      apply (bind_run _ _ tt tt [Setmode gpio_mode] tt).
      - unfold GPIO_setmode. now rewrite Hmode.
      - change (for_each (rs :: e :: data_pins)
                  (fun pin => GPIO_setup gpio pin OUT) tt
                = (tt, map (fun pin => Setup pin OUT) pre,
                   inl (GPIO_rejected_pin p))).
        rewrite Hsplit. now apply setup_pins_first_rejected. }
    now rewrite Hc.
Qed.

Lemma construction_stops_at_first_rejection_witness :
  __init__ no_pin_18 7 8 [25; 24; 23; 18] 20 [0x80; 0xC0; 0x94; 0xD4] BCM
  = ([ Setmode BCM; Setup 7 OUT; Setup 8 OUT;
       Setup 25 OUT; Setup 24 OUT; Setup 23 OUT ],
     inl (GPIO_rejected_pin 18))
  /\ __init__ {| accepts_mode := fun m => m =? 10;
                 accepts_pin := fun _ => true |}
       7 8 [25; 24; 23; 18] 20 [0x80; 0xC0; 0x94; 0xD4] BCM
     = ([], inl (GPIO_rejected_mode BCM)).
Proof.
  split.
  - apply (proj2 (construction_stops_at_first_rejection no_pin_18 7 8
                    [25; 24; 23; 18] 20 [0x80; 0xC0; 0x94; 0xD4] BCM)
             [7; 8; 25; 24; 23] 18 []); reflexivity.
  - apply (proj1 (construction_stops_at_first_rejection
                    {| accepts_mode := fun m => m =? 10;
                       accepts_pin := fun _ => true |}
                    7 8 [25; 24; 23; 18] 20 [0x80; 0xC0; 0x94; 0xD4] BCM)).
    reflexivity.
Defined.

(** ** Lines joined and split again *)

(** X10.  Joining lines with line breaks and splitting the text again are
    inverse to each other as [print_text] and its caller use them: a text
    is the join of its pieces, no piece holds a line break, and a non-empty
    list of lines without line breaks comes back from its join unchanged, so
    that with four data lines wired [print_text] of the joined text renders
    exactly those lines. *)
Theorem print_text_of_joined_lines (self : HD44780) (lines : list str) :
  (forall s, join (split s) = s /\ Forall one_line (split s) /\ split s <> [])
  /\ (lines <> [] -> Forall one_line lines ->
      split (join lines) = lines
      /\ (four_data_pins self ->
          print_text (join lines) self
          = (self,
             transfers self (rendered (_lines self) lines (_num_chars self)),
             inr tt))).
Proof.
  split.
  - intros s. split; [apply join_split|]. split; [apply split_pieces|].
    destruct (split_cons_shape s) as (l & ls & E). rewrite E. discriminate.
  - intros Hne Hall. split; [now apply split_join|].
    intros Hp. rewrite print_text_run by assumption.
    now rewrite split_join.
Qed.

Lemma print_text_of_joined_lines_witness :
  split (join [lit "one"; lit "two"]) = [lit "one"; lit "two"]
  /\ print_text (join [lit "one"; lit "two"]) demo_lcd
     = (demo_lcd,
        transfers demo_lcd
          (rendered (_lines demo_lcd) [lit "one"; lit "two"] 20),
        inr tt).
Proof.
  assert (Hall : Forall one_line [lit "one"; lit "two"]).
  { repeat constructor; unfold one_line; simpl;
      intros H; repeat destruct H as [H|H]; try discriminate H; exact H. }
  destruct (proj2 (print_text_of_joined_lines demo_lcd [lit "one"; lit "two"])
              ltac:(discriminate) Hall) as [H1 H2].
  split; [exact H1|]. apply H2. reflexivity.
Defined.

(** ** The console program *)

Lemma last_four_length {A} (l : list A) :
  length (last_four l) = Nat.min 4 (length l).
Proof. unfold last_four. rewrite length_skipn. lia. Qed.

Lemma last_four_not_nil {A} (l : list A) : l <> [] -> last_four l <> [].
Proof.
  intros Hne Hnil. apply (f_equal (@length A)) in Hnil.
  rewrite last_four_length in Hnil. destruct l; [congruence|].
  simpl in Hnil. lia.
Qed.

Lemma last_four_Forall {A} (P : A -> Prop) (l : list A) :
  Forall P l -> Forall P (last_four l).
Proof.
  unfold last_four. intros H.
  rewrite <- (firstn_skipn (length l - 4) l) in H.
  now apply Forall_app in H.
Qed.

Lemma last_four_step {A} (l : list A) (x : A) :
  last_four (last_four l ++ [x]) = last_four (l ++ [x]).
Proof.
  unfold last_four at 1 3.
  rewrite !length_app, last_four_length. simpl length.
  rewrite !skipn_app. unfold last_four.
  rewrite skipn_skipn, length_skipn.
  destruct (Nat.le_gt_cases (length l) 3) as [Hle|Hgt].
  - replace (Nat.min 4 (length l) + 1 - 4 + (length l - 4))%nat
      with (length l + 1 - 4)%nat by lia.
    f_equal. f_equal. lia.
  - replace (Nat.min 4 (length l) + 1 - 4 + (length l - 4))%nat
      with (length l + 1 - 4)%nat by lia.
    f_equal. f_equal. lia.
Qed.

Lemma welcome_one_line : one_line (lit "Welcome...").
Proof.
  unfold one_line. simpl. intros H.
  repeat destruct H as [H|H]; try discriminate H. exact H.
Qed.

Lemma flat_map_shift {B} (f : nat -> list B) (l : list nat) :
  flat_map f (map S l) = flat_map (fun k => f (S k)) l.
Proof. induction l as [|k l IH]; simpl; [|rewrite IH]; reflexivity. Qed.

Lemma flat_map_seq_next {B} (f : nat -> list B) (n : nat) :
  flat_map f (seq 0 (S n)) = f 0%nat ++ flat_map (fun k => f (S k)) (seq 0 n).
Proof. cbn [seq flat_map]. now rewrite <- seq_shift, flat_map_shift. Qed.

Lemma main_loop_run (lcd : HD44780) (last : stop) :
  four_data_pins lcd ->
  forall (typed : list str) (h : list str),
  h <> [] -> Forall one_line h -> Forall one_line typed ->
  main_loop lcd (last_four h) typed last
  = (flat_map (fun k => screen lcd (last_four (h ++ firstn k typed)))
       (seq 0 (S (length typed))),
     ending last).
Proof.
  intros Hp. induction typed as [|x typed IH]; intros h Hne Hh Ht.
  - cbn [main_loop]. rewrite print_text_run by assumption.
    rewrite split_join
      by (try apply last_four_not_nil; try apply last_four_Forall; assumption).
    simpl. rewrite !app_nil_r. unfold screen. now destruct last.
  - inversion Ht as [|? ? Hx Ht']; subst.
    cbn [main_loop]. rewrite print_text_run by assumption.
    rewrite split_join
      by (try apply last_four_not_nil; try apply last_four_Forall; assumption).
    rewrite last_four_step.
    rewrite (IH (h ++ [x]));
      [|now destruct h|apply Forall_app; split; auto|assumption].
    cbn [length]. rewrite (flat_map_seq_next _ (S (length typed))).
    cbn [firstn]. rewrite app_nil_r.
    unfold screen at 2. rewrite <- app_assoc. cbn [app].
    f_equal. f_equal. f_equal.
    apply flat_map_ext. intros k. cbn [firstn].
    now rewrite <- app_assoc.
Qed.

Lemma pin_events_no_cleanup (t : list event) : ~ In Cleanup (map Pin t).
Proof.
  intros H. apply in_map_iff in H as (ev & Hev & _). discriminate Hev.
Qed.

Lemma main_loop_ends (lcd : HD44780) (last : stop) :
  four_data_pins lcd ->
  forall (typed : list str) (lines : list str),
  exists t,
    main_loop lcd lines typed last = (t, ending last) /\ ~ In Cleanup t.
Proof.
  intros Hp. induction typed as [|x typed IH]; intros lines;
    cbn [main_loop]; rewrite print_text_run by assumption.
  - eexists. split; [now destruct last|].
    intros H. apply in_app_or in H as [H|[H|[]]]; [|discriminate H].
    now apply pin_events_no_cleanup in H.
  - destruct (IH (last_four (lines ++ [x]))) as (t' & Hrun & Hno).
    rewrite Hrun. eexists. split; [reflexivity|].
    intros H. apply in_app_or in H as [H|[H|H]];
      [now apply pin_events_no_cleanup in H|discriminate H|contradiction].
Qed.

(** X11.  On a platform that accepts the wiring, when no typed line holds a
    line break (as [raw_input] guarantees), the console program initialises
    the display and then, once before each prompt, renders the last four
    entries of the history "Welcome...", line 1, line 2, ... as it stands,
    oldest first; these are never more than the four rows of the display.
    After an interrupt at the prompt it cleans the pins up; at the end of
    the input it leaves with the error of [raw_input]. *)
Theorem main_shows_last_four_lines
    (gpio : GPIO) (typed : list str) (last : stop) :
  accepts_all gpio 7 8 [25; 24; 23; 18] BCM = true ->
  Forall one_line typed ->
  let history := lit "Welcome..." :: typed in
  main gpio typed last
  = (map Pin
       (configured 7 8 [25; 24; 23; 18] BCM
        ++ transfers demo_lcd
             [(MODE_COMMAND, 0x28); (MODE_COMMAND, 0x0C); (MODE_COMMAND, 0x01)])
     ++ flat_map
          (fun k => screen demo_lcd (last_four (firstn (S k) history)))
          (seq 0 (S (length typed)))
     ++ match last with Interrupt => [Cleanup] | EndOfInput => [] end,
     ending last)
  /\ (forall k,
        (length (last_four (firstn (S k) history))
         <= length (_lines demo_lcd))%nat).
Proof.
  intros Hacc Htyped history. split.
  - unfold main.
    rewrite (init_accepted gpio 7 8 [25; 24; 23; 18] 20
               [0x80; 0xC0; 0x94; 0xD4] BCM eq_refl Hacc).
    change [lit "Welcome..."] with (last_four [lit "Welcome..."]).
    change {| _lcd_data_pins := [25; 24; 23; 18];
              _lcd_rs := 7; _lcd_e := 8; _num_chars := 20;
              _lines := [0x80; 0xC0; 0x94; 0xD4] |} with demo_lcd.
    rewrite (main_loop_run demo_lcd last eq_refl typed [lit "Welcome..."]);
      [|discriminate|repeat constructor; apply welcome_one_line|assumption].
    destruct last; cbn [ending]; [reflexivity|].
    now rewrite app_nil_r.
  - intros k. rewrite last_four_length.
    change (length (_lines demo_lcd)) with 4%nat. lia.
Qed.

Lemma main_shows_last_four_lines_witness :
  main any_pin [lit "a"; lit "b"; lit "c"; lit "d"] Interrupt
  = (map Pin
       (configured 7 8 [25; 24; 23; 18] BCM
        ++ transfers demo_lcd
             [(MODE_COMMAND, 0x28); (MODE_COMMAND, 0x0C); (MODE_COMMAND, 0x01)])
     ++ screen demo_lcd [lit "Welcome..."]
     ++ screen demo_lcd [lit "Welcome..."; lit "a"]
     ++ screen demo_lcd [lit "Welcome..."; lit "a"; lit "b"]
     ++ screen demo_lcd [lit "Welcome..."; lit "a"; lit "b"; lit "c"]
     ++ screen demo_lcd [lit "a"; lit "b"; lit "c"; lit "d"]
     ++ [Cleanup],
     None).
Proof.
  assert (Hall : Forall one_line [lit "a"; lit "b"; lit "c"; lit "d"]).
  { repeat constructor; unfold one_line; simpl;
      intros H; repeat destruct H as [H|H]; try discriminate H; exact H. }
  exact (proj1 (main_shows_last_four_lines any_pin
                  [lit "a"; lit "b"; lit "c"; lit "d"] Interrupt eq_refl Hall)).
Defined.

(** X12.  How the console program ends, for the sessions covered here:
    those in which an interrupt, if there is one, arrives while the program
    waits at the prompt (an interrupt inside the constructor or inside a
    rendering is not covered).  When the platform rejects the wiring the
    rejection leaves the program uncaught, before any prompt and without
    [GPIO.cleanup()].  When it accepts the wiring, an interrupt at the
    prompt ends the program with [GPIO.cleanup()] as its last call, and at
    the end of the input the error of [raw_input] leaves the program
    uncaught without [GPIO.cleanup()].  This holds for whatever is typed. *)
Theorem main_endings_at_the_prompt
    (gpio : GPIO) (typed : list str) (last : stop) :
  (accepts_all gpio 7 8 [25; 24; 23; 18] BCM = false ->
   exists t x,
     main gpio typed last = (map Pin t, Some (Raised x))
     /\ is_rejection x = true)
  /\ (accepts_all gpio 7 8 [25; 24; 23; 18] BCM = true ->
      exists t,
        ~ In Cleanup t
        /\ main gpio typed last
           = match last with
             | Interrupt => (t ++ [Cleanup], None)
             | EndOfInput => (t, Some EOFError)
             end).
Proof.
  split; intros Hacc; unfold main.
  - destruct (init_rejected gpio 7 8 [25; 24; 23; 18] 20
                [0x80; 0xC0; 0x94; 0xD4] BCM Hacc) as (t & x & Hrun & Hx & _).
    rewrite Hrun. now exists t, x.
  - rewrite (init_accepted gpio 7 8 [25; 24; 23; 18] 20
               [0x80; 0xC0; 0x94; 0xD4] BCM eq_refl Hacc).
    destruct (main_loop_ends demo_lcd last eq_refl typed [lit "Welcome..."])
      as (t' & Hrun & Hno).
    change {| _lcd_data_pins := [25; 24; 23; 18];
              _lcd_rs := 7; _lcd_e := 8; _num_chars := 20;
              _lines := [0x80; 0xC0; 0x94; 0xD4] |} with demo_lcd.
    rewrite Hrun.
    eexists. split; [|destruct last; cbn [ending];
                      [rewrite app_assoc|]; reflexivity].
    intros H. apply in_app_or in H as [H|H]; [|contradiction].
    now apply pin_events_no_cleanup in H.
Qed.

Lemma main_endings_at_the_prompt_witness :
  (exists t x,
     main no_pin_18 [lit "a"] Interrupt = (map Pin t, Some (Raised x))
     /\ is_rejection x = true)
  /\ (exists t,
        ~ In Cleanup t
        /\ main any_pin [lit "a"] EndOfInput = (t, Some EOFError)).
Proof.
  split.
  - apply (proj1 (main_endings_at_the_prompt no_pin_18 [lit "a"]
                    Interrupt)).
    reflexivity.
  - apply (proj2 (main_endings_at_the_prompt any_pin [lit "a"]
                    EndOfInput)).
    reflexivity.
Defined.

(** ** What the wire says about the text *)

Lemma app_same_length {A} (a c : list A) : forall b d,
  length a = length c -> a ++ b = c ++ d -> a = c /\ b = d.
Proof.
  revert c. induction a as [|x a IH]; intros [|y c] b d Hlen H;
    try discriminate Hlen.
  - now split.
  - simpl in *. injection H as -> H. injection Hlen as Hlen.
    destruct (IH c b d Hlen H) as [-> ->]. now split.
Qed.

Lemma map_injective {A B} (f : A -> B) :
  (forall x y, f x = f y -> x = y) ->
  forall l l', map f l = map f l' -> l = l'.
Proof.
  intros Hf. induction l as [|x l IH]; intros [|y l'] H; try discriminate H.
  - reflexivity.
  - simpl in H. injection H as Hxy H. f_equal; auto.
Qed.

Lemma ord_injective (c c' : ascii) : ord c mod 256 = ord c' mod 256 -> c = c'.
Proof.
  unfold ord. intros H.
  assert (Hb : forall a, 0 <= Z.of_N (N_of_ascii a) < 256).
  { intros a. pose proof (N_ascii_bounded a). lia. }
  rewrite !Z.mod_small in H by apply Hb.
  apply N2Z.inj in H.
  rewrite <- (ascii_N_embedding c), <- (ascii_N_embedding c'). now rewrite H.
Qed.

Lemma byte_transfer_injective (self : HD44780) (v v' : Z) (mode mode' : bool) :
  four_data_pins self ->
  byte_transfer self mode v = byte_transfer self mode' v' ->
  mode = mode' /\ v mod 256 = v' mod 256.
Proof.
  unfold byte_transfer, nibble_transfer, four_data_pins. intros Hp.
  destruct (_lcd_data_pins self) as [|d0 [|d1 [|d2 [|d3 [|d4 rest]]]]];
    try discriminate Hp.
  simpl. intros H.
  injection H as Hm H4 H5 H6 H7 _ H0 H1 H2 H3.
  split; [assumption|].
  apply low_bits_determine. intros k Hk.
  assert (Hc : k = 0 \/ k = 1 \/ k = 2 \/ k = 3
               \/ k = 4 \/ k = 5 \/ k = 6 \/ k = 7) by lia.
  destruct Hc as [->|[->|[->|[->|[->|[->|[->| ->]]]]]]]; assumption.
Qed.

Lemma transfers_injective (self : HD44780) :
  four_data_pins self ->
  forall xs ys,
  transfers self xs = transfers self ys ->
  map (fun x => (fst x, snd x mod 256)) xs
  = map (fun x => (fst x, snd x mod 256)) ys.
Proof.
  intros Hp. induction xs as [|[m v] xs IH]; intros [|[m' v'] ys] H.
  - reflexivity.
  - apply (f_equal (@length event)) in H.
    rewrite !transfers_length in H by assumption. simpl in H. lia.
  - apply (f_equal (@length event)) in H.
    rewrite !transfers_length in H by assumption. simpl in H. lia.
  - rewrite !transfers_cons in H.
    apply app_same_length in H as [Hb Hrest];
      [|now rewrite !byte_transfer_length].
    apply byte_transfer_injective in Hb as [-> Hv]; [|assumption].
    simpl. rewrite Hv. f_equal. now apply IH.
Qed.

Lemma rows_injective (w : nat) (locations : list Z) : forall fs gs : list str,
  length fs = length locations -> length gs = length locations ->
  (forall s, In s fs -> (w <= length s)%nat) ->
  (forall s, In s gs -> (w <= length s)%nat) ->
  map (fun x => (fst x, snd x mod 256))
    (flat_map (fun al => row_transfers w (fst al) (snd al))
       (combine locations fs))
  = map (fun x => (fst x, snd x mod 256))
      (flat_map (fun al => row_transfers w (fst al) (snd al))
         (combine locations gs)) ->
  map (firstn w) fs = map (firstn w) gs.
Proof.
  induction locations as [|a locations IH]; intros [|f fs] [|g gs] Hf Hg Wf Wg H;
    try discriminate Hf; try discriminate Hg.
  - reflexivity.
  - simpl in Hf, Hg. injection Hf as Hf. injection Hg as Hg.
    cbn [combine flat_map fst snd] in H. rewrite !map_app in H.
    assert (Hfw : (w <= length f)%nat) by (apply Wf; now left).
    assert (Hgw : (w <= length g)%nat) by (apply Wg; now left).
    apply app_same_length in H as [Hrow Hrest].
    + unfold row_transfers in Hrow. cbn [map fst snd] in Hrow.
      injection Hrow as Hrow. rewrite !map_map in Hrow. cbn [fst snd] in Hrow.
      apply map_injective in Hrow.
      * simpl. rewrite Hrow. f_equal.
        apply IH; auto; intros s Hs; [apply Wf|apply Wg]; now right.
      * intros c c' Hc. injection Hc as Hc. now apply ord_injective.
    + unfold row_transfers. rewrite !length_map. simpl.
      rewrite !length_map, !length_firstn. lia.
Qed.

(** X13.  With four data lines wired, the events of a rendering say what is
    shown up to the low eight bits of each character code: two texts produce
    the same events if and only if, row by row, the first [num_chars]
    characters of the padded rows have the same codes modulo 256.  For
    strings of 8-bit characters, which are the strings of this development,
    that is: if and only if the rows shown are equal. *)
Theorem print_text_trace_tells_rows (self : HD44780) (m1 m2 : str) :
  four_data_pins self ->
  let w := Z.to_nat (_num_chars self) in
  let shown (m : str) :=
    map (firstn w)
      (formatted_lines (length (_lines self)) (split m) (_num_chars self)) in
  let codes (m : str) := map (map (fun c => ord c mod 256)) (shown m) in
  (trace_of (print_text m1 self) = trace_of (print_text m2 self)
   <-> codes m1 = codes m2)
  /\ (trace_of (print_text m1 self) = trace_of (print_text m2 self)
      <-> shown m1 = shown m2).
Proof.
  intros Hp w shown codes.
  assert (Hshown : trace_of (print_text m1 self)
                   = trace_of (print_text m2 self)
                   <-> shown m1 = shown m2).
  { rewrite !print_text_run by assumption.
    unfold trace_of. cbn [fst snd]. split.
    - intros H. apply transfers_injective in H; [|assumption].
      unfold rendered in H. fold w in H.
      apply (rows_injective w (_lines self)); try apply formatted_lines_length;
        try (intros s Hs; now apply formatted_lines_wide in Hs).
      exact H.
    - intros H. unfold rendered. fold w. f_equal. now apply rows_ext. }
  split; [|exact Hshown].
  rewrite Hshown. subst codes. split.
  - now intros ->.
  - apply map_injective. apply map_injective. apply ord_injective.
Qed.

Lemma print_text_trace_tells_rows_witness :
  trace_of (print_text (lit "Hi") demo_lcd)
  = trace_of (print_text (lit "Hi  ") demo_lcd).
Proof.
  apply (proj1 (print_text_trace_tells_rows demo_lcd (lit "Hi") (lit "Hi  ")
                  eq_refl)).
  reflexivity.
Defined.

Lemma byte_transfer_selects (self : HD44780) (mode : bool) (v : Z) :
  four_data_pins self ->
  ~ In (_lcd_rs self) (_lcd_e self :: _lcd_data_pins self) ->
  writes_to (_lcd_rs self) (byte_transfer self mode v) = [mode; mode].
Proof.
  unfold four_data_pins, byte_transfer, nibble_transfer. intros Hp Hnot.
  destruct (_lcd_data_pins self) as [|d0 [|d1 [|d2 [|d3 [|d4 rest]]]]];
    try discriminate Hp.
  simpl in Hnot. simpl. rewrite Z.eqb_refl.
  repeat match goal with
         | |- context [?p =? _lcd_rs self] =>
             destruct (Z.eqb_spec p (_lcd_rs self)); [exfalso; tauto|]
         end.
  reflexivity.
Qed.

Lemma transfers_selects (self : HD44780) (xs : list (bool * Z)) :
  four_data_pins self ->
  ~ In (_lcd_rs self) (_lcd_e self :: _lcd_data_pins self) ->
  writes_to (_lcd_rs self) (transfers self xs)
  = flat_map (fun x => [fst x; fst x]) xs.
Proof.
  intros Hp Hnot. induction xs as [|[m v] xs IH]; [reflexivity|].
  rewrite transfers_cons, writes_to_app, byte_transfer_selects, IH
    by assumption.
  reflexivity.
Qed.

Lemma rendered_modes (locations : list Z) : forall lines num_chars,
  flat_map (fun x : bool * Z => [fst x; fst x])
    (rendered locations lines num_chars)
  = concat
      (repeat ([false; false] ++ repeat true (2 * Z.to_nat num_chars))
         (length locations)).
Proof.
  induction locations as [|a locations IH]; intros lines num_chars.
  - reflexivity.
  - rewrite rendered_cons, flat_map_app, IH.
    cbn [length repeat concat]. f_equal.
    pose proof (next_line_wide lines num_chars) as Hw.
    unfold row_transfers. cbn [flat_map fst app]. do 2 f_equal.
    rewrite flat_map_concat_map, map_map. cbn [fst].
    assert (Hl : length (firstn (Z.to_nat num_chars)
                           (fst (next_line lines num_chars)))
                 = Z.to_nat num_chars) by (rewrite length_firstn; lia).
    revert Hl.
    generalize (firstn (Z.to_nat num_chars) (fst (next_line lines num_chars))).
    intros l <-. clear. induction l as [|c l IHl]; [reflexivity|].
    cbn [map concat length app]. rewrite IHl.
    replace (2 * S (length l))%nat with (S (S (2 * length l))) by lia.
    reflexivity.
Qed.

(** X14.  With four data lines wired and a register-select pin that is none
    of the other five, a rendering writes register select twice low for the
    address of each row and then twice high for each of its [num_chars]
    characters: the line is low exactly while a command is on the wire. *)
Theorem print_text_register_select (self : HD44780) (message : str) :
  four_data_pins self ->
  ~ In (_lcd_rs self) (_lcd_e self :: _lcd_data_pins self) ->
  writes_to (_lcd_rs self) (trace_of (print_text message self))
  = concat
      (repeat
         ([MODE_COMMAND; MODE_COMMAND]
          ++ repeat MODE_DATA (2 * Z.to_nat (_num_chars self)))
         (length (_lines self))).
Proof.
  intros Hp Hnot. rewrite print_text_run by assumption.
  unfold trace_of. cbn [fst snd].
  rewrite transfers_selects by assumption. apply rendered_modes.
Qed.

Lemma print_text_register_select_witness :
  writes_to 7 (trace_of (print_text (lit "Hi") demo_lcd))
  = concat (repeat ([false; false] ++ repeat true 40) 4).
Proof.
  apply (print_text_register_select demo_lcd (lit "Hi") eq_refl).
  simpl. intros [H|[H|[H|[H|[H|[]]]]]]; discriminate H.
Defined.
